(** * if-dl web server (src/web/server.ts): sessions, event broadcast,
      log adapter and path validation

    The development follows the file top to bottom:
    - request bodies as parsed by [express.json()] and the option defaults
      of [POST /api/download];
    - JavaScript run-time values (with an object heap, so that circular
      structures exist) and [JSON.stringify] on them;
    - [broadcast] over the WebSocket clients;
    - [WebLogger.log];
    - the handlers [POST /api/download], [POST /api/download/:id/cancel],
      [GET /api/downloads] and the two continuations attached to
      [downloader.start];
    - [POST /api/validate-path].

    Collaborators that live outside the file ([ImageFapDownloader],
    [util.inspect], the [fs] probes, [path.parse], [Date.now]) enter as
    parameters or as data carried by the inputs of the handlers. *)

From Stdlib Require Import ZArith String Ascii List Bool Lia DecimalString DecimalZ.
From stdpp Require Import base list strings.

Set Warnings "-register-all".
Local Open Scope string_scope.
Local Open Scope list_scope.

(* ===================================================================== *)
(** ** Request bodies: the values [express.json()] hands to a handler    *)
(* ===================================================================== *)

(** A parsed JSON document. Numbers are kept as integers: no handler does
    arithmetic on a number of the body, it only tests or forwards it. *)
Inductive Json : Type :=
| JNull
| JBool (b : bool)
| JNumber (n : Z)
| JString (s : string)
| JArray (elems : list Json)
| JObject (fields : list (string * Json)).

(** What reading a property yields: [None] is JavaScript's [undefined],
    which no parsed document contains but every missing property gives. *)
Definition JsOpt : Type := option Json.

(** [JSON.parse] keeps the last of several equal keys. *)
Definition own_property (k : string) (fields : list (string * Json)) : JsOpt :=
  snd <$> List.find (fun p => String.eqb (fst p) k) (rev fields).

(** [v.k] for the property names this file reads: only an object of the
    body has them; arrays, strings, numbers and booleans give [undefined]. *)
Definition prop (v : Json) (k : string) : JsOpt :=
  match v with
  | JObject fields => own_property k fields
  | _ => None
  end.

(** [o?.k] *)
Definition opt_chain (o : JsOpt) (k : string) : JsOpt :=
  match o with
  | None | Some JNull => None
  | Some v => prop v k
  end.

(** [o ?? d] *)
Definition nullish (o : JsOpt) (d : Json) : Json :=
  match o with
  | None | Some JNull => d
  | Some v => v
  end.

(** [!!o] *)
Definition truthy (o : JsOpt) : bool :=
  match o with
  | None | Some JNull => false
  | Some (JBool b) => b
  | Some (JNumber n) => negb (Z.eqb n 0)
  | Some (JString s) => negb (String.eqb s "")
  | Some (JArray _) | Some (JObject _) => true
  end.


(** *** The options object built for [new ImageFapDownloader(url, {...})] *)

Record DirStructure : Type := {
  user : Json;
  favorites : Json;
  folder : Json;
  gallery : Json
}.

Record MinTime : Type := {
  page : Json;
  image : Json
}.

Record RequestOptions : Type := {
  maxRetries : Json;
  maxConcurrent : Json;
  minTime : MinTime
}.

Record DownloaderOptions : Type := {
  outDir : JsOpt;
  overwrite : Json;
  seqFilenames : Json;
  fullFilenames : Json;
  saveJSON : Json;
  saveHTML : Json;
  dirStructure : DirStructure;
  request : RequestOptions
}.

Section Options.

Local Notation "o ?.[ k ]" := (opt_chain o k) (at level 1, left associativity).
Local Notation "o ?? d" := (nullish o d) (at level 45, right associativity).

(** Lines 100-122: the second argument of the constructor. *)
Definition downloader_options (outDir options : JsOpt) : DownloaderOptions :=
  {| outDir := outDir;
     overwrite := options ?.["overwrite"] ?? JBool false;
     seqFilenames := options ?.["seqFilenames"] ?? JBool false;
     fullFilenames := options ?.["fullFilenames"] ?? JBool false;
     saveJSON := options ?.["saveJSON"] ?? JBool true;
     saveHTML := options ?.["saveHTML"] ?? JBool false;
     dirStructure :=
       {| user := options ?.["dirStructure"] ?.["user"] ?? JBool true;
          favorites := options ?.["dirStructure"] ?.["favorites"] ?? JBool true;
          folder := options ?.["dirStructure"] ?.["folder"] ?? JBool true;
          gallery := options ?.["dirStructure"] ?.["gallery"] ?? JBool true |};
     request :=
       {| maxRetries := options ?.["request"] ?.["maxRetries"] ?? JNumber 3;
          maxConcurrent := options ?.["request"] ?.["maxConcurrent"] ?? JNumber 10;
          minTime :=
            {| page := options ?.["request"] ?.["minTime"] ?.["page"] ?? JNumber 200;
               image := options ?.["request"] ?.["minTime"] ?.["image"] ?? JNumber 200 |} |} |}.

End Options.

(** [Date.now().toString()]: the clock reading, an integer number of
    milliseconds, in decimal. *)
Definition toString (ms : Z) : string := NilZero.string_of_int (Z.to_int ms).

(* ===================================================================== *)
(** ** Run-time values handed to the logger                              *)
(* ===================================================================== *)

(** Message parts of a log entry are arbitrary JavaScript values. Objects
    live in a heap and are named by their location, so a value may reach
    itself (a circular structure) and two parts may share an object. *)
Abbreviation loc := nat (only parsing).

(** Numbers: the integral ones and the three that JSON cannot write. *)
Inductive Number : Type :=
| Int (z : Z)
| NaN
| Infinity (negative : bool).

Inductive Value : Type :=
| VUndefined
| VNull
| VBool (b : bool)
| VNumber (n : Number)
| VString (s : string)
| VBigInt (z : Z)
| VSymbol (description : string)
| VRef (l : loc).

(** A heap object: a plain object or an array with its own enumerable
    properties, a function, or an [Error] with the four members that
    lib.es2022 declares ([name], [message], [stack?], [cause?]) next to
    whatever enumerable properties were added to it. *)
Inductive Obj : Type :=
| OPlain (props : list (string * Value))
| OArray (elems : list Value)
| OFunction
| OError (name message : string) (stack : option string) (cause : Value)
         (props : list (string * Value)).

Abbreviation Heap := (list Obj) (only parsing).

Definition heap_get (h : Heap) (l : loc) : Obj := default (OPlain []) (h !! l).

(** [typeof v] *)
Definition typeof (h : Heap) (v : Value) : string :=
  match v with
  | VUndefined => "undefined"
  | VNull => "object"
  | VBool _ => "boolean"
  | VNumber _ => "number"
  | VString _ => "string"
  | VBigInt _ => "bigint"
  | VSymbol _ => "symbol"
  | VRef l => match heap_get h l with OFunction => "function" | _ => "object" end
  end.

(** [v instanceof Error] *)
Definition instanceof_Error (h : Heap) (v : Value) : bool :=
  match v with
  | VRef l => match heap_get h l with OError _ _ _ _ _ => true | _ => false end
  | _ => false
  end.

(** The seven primitive types of the language; everything else is an
    object (functions included). *)
Definition is_primitive (v : Value) : bool :=
  match v with VRef _ => false | _ => true end.

(** *** [JSON.stringify] *)

(** How an evaluation ends: with a value, or by throwing. *)
Inductive Completion (A : Type) : Type :=
| Normal (a : A)
| Throw.
Arguments Normal {A} a.
Arguments Throw {A}.

Definition dquote : string := String (ascii_of_nat 34) EmptyString.

Definition hex_digit (n : nat) : string :=
  String (nth n (list_ascii_of_string "0123456789abcdef") "0"%char) EmptyString.

Definition escape_char (c : ascii) : string :=
  let n := nat_of_ascii c in
  if Nat.eqb n 34 then "\" +:+ dquote
  else if Nat.eqb n 92 then "\\"
  else if Nat.eqb n 8 then "\b"
  else if Nat.eqb n 9 then "\t"
  else if Nat.eqb n 10 then "\n"
  else if Nat.eqb n 12 then "\f"
  else if Nat.eqb n 13 then "\r"
  else if Nat.ltb n 32 then "\u00" +:+ hex_digit (n / 16) +:+ hex_digit (n mod 16)
  else String c EmptyString.

Fixpoint escape (s : string) : string :=
  match s with
  | EmptyString => EmptyString
  | String c rest => escape_char c +:+ escape rest
  end.

(** QuoteJSONString *)
Definition quote (s : string) : string := dquote +:+ escape s +:+ dquote.

Definition number_text (n : Number) : string :=
  match n with
  | Int z => toString z
  | NaN | Infinity _ => "null"
  end.

Definition member (k text : string) : string := quote k +:+ ":" +:+ text.

Definition braces (members : list string) : string :=
  "{" +:+ String.concat "," members +:+ "}".

Definition brackets (items : list string) : string :=
  "[" +:+ String.concat "," items +:+ "]".

(** The elements of an array: [undefined] is written [null]; the first
    element that throws ends the walk. [None] is "ran out of fuel". *)
Fixpoint stringify_elems (rec : Value -> option (Completion (option string)))
    (elems : list Value) : option (Completion (list string)) :=
  match elems with
  | [] => Some (Normal [])
  | e :: rest =>
      match rec e with
      | None => None
      | Some Throw => Some Throw
      | Some (Normal t) =>
          match stringify_elems rec rest with
          | None => None
          | Some Throw => Some Throw
          | Some (Normal ts) => Some (Normal (default "null" t :: ts))
          end
      end
  end.

(** The members of an object: one whose value is [undefined] is left
    out. *)
Fixpoint stringify_props (rec : Value -> option (Completion (option string)))
    (props : list (string * Value)) : option (Completion (list string)) :=
  match props with
  | [] => Some (Normal [])
  | (k, v) :: rest =>
      match rec v with
      | None => None
      | Some Throw => Some Throw
      | Some (Normal t) =>
          match stringify_props rec rest with
          | None => None
          | Some Throw => Some Throw
          | Some (Normal ms) =>
              Some (Normal (match t with
                            | Some text => member k text :: ms
                            | None => ms
                            end))
          end
      end
  end.

(** SerializeJSONProperty. [stack] holds the objects being written, as in
    the language specification: meeting one of them again is the
    "circular structure" [TypeError]; a [BigInt] is the other one.
    [undefined], symbols and functions have no JSON text. [fuel] bounds
    the nesting of objects ([stringify_value_fuel] shows the bound used by
    [JSON_stringify_value] is never reached). *)
Fixpoint stringify_value (fuel : nat) (h : Heap) (stack : list loc) (v : Value)
    {struct fuel} : option (Completion (option string)) :=
  match v with
  | VUndefined | VSymbol _ => Some (Normal None)
  | VNull => Some (Normal (Some "null"))
  | VBool b => Some (Normal (Some (if b then "true" else "false")))
  | VNumber n => Some (Normal (Some (number_text n)))
  | VString s => Some (Normal (Some (quote s)))
  | VBigInt _ => Some Throw
  | VRef l =>
      match heap_get h l with
      | OFunction => Some (Normal None)
      | o =>
          if bool_decide (l ∈ stack) then Some Throw
          else
            match fuel with
            | O => None
            | S fuel' =>
                let rec := stringify_value fuel' h (l :: stack) in
                match o with
                | OArray elems =>
                    match stringify_elems rec elems with
                    | None => None
                    | Some Throw => Some Throw
                    | Some (Normal ts) => Some (Normal (Some (brackets ts)))
                    end
                | OPlain props | OError _ _ _ _ props =>
                    match stringify_props rec props with
                    | None => None
                    | Some Throw => Some Throw
                    | Some (Normal ms) => Some (Normal (Some (braces ms)))
                    end
                | OFunction => Some (Normal None)
                end
            end
      end
  end.

(** [JSON.stringify(v)] for a value of heap [h]. *)
Definition JSON_stringify_value (h : Heap) (v : Value) : Completion (option string) :=
  default Throw (stringify_value (S (length h)) h [] v).

(* ===================================================================== *)
(** ** Events and [broadcast]                                            *)
(* ===================================================================== *)

(** One element of the [message] array of a [log] event, as
    [WebLogger.log] builds it: the record made from an [Error], the text
    made by [util.inspect], or the part itself. *)
Inductive Part : Type :=
| PErrorRecord (name message : string) (stack : option string) (cause : Value)
| PText (text : string)
| PValue (v : Value).

(** The four objects this file passes to [broadcast]. A [log] event holds
    references into the heap its parts live in, so it carries that heap. *)
Inductive Event : Type :=
| EvLog (h : Heap) (level : string) (originator : option string) (message : list Part)
| EvComplete (downloadId : string)
| EvError (downloadId message : string)
| EvCancelled (downloadId : string).

Definition optional_member (k : string) (text : option string) : list string :=
  match text with
  | Some t => [member k t]
  | None => []
  end.

Definition JSON_stringify_part (h : Heap) (p : Part) : Completion string :=
  match p with
  | PErrorRecord name message stack cause =>
      match JSON_stringify_value h cause with
      | Throw => Throw
      | Normal c =>
          Normal (braces ([member "type" (quote "error");
                           member "name" (quote name);
                           member "message" (quote message)]
                          ++ optional_member "stack" (quote <$> stack)
                          ++ optional_member "cause" c))
      end
  | PText text => Normal (quote text)
  | PValue v =>
      match JSON_stringify_value h v with
      | Throw => Throw
      | Normal t => Normal (default "null" t)
      end
  end.

Fixpoint JSON_stringify_parts (h : Heap) (ps : list Part) : Completion (list string) :=
  match ps with
  | [] => Normal []
  | p :: rest =>
      match JSON_stringify_part h p with
      | Throw => Throw
      | Normal t =>
          match JSON_stringify_parts h rest with
          | Throw => Throw
          | Normal ts => Normal (t :: ts)
          end
      end
  end.

(** [JSON.stringify(data)] for the [data] of a [broadcast] call. *)
Definition JSON_stringify (data : Event) : Completion string :=
  match data with
  | EvLog h level originator message =>
      match JSON_stringify_parts h message with
      | Throw => Throw
      | Normal ts =>
          Normal (braces ([member "type" (quote "log");
                           member "level" (quote level)]
                          ++ optional_member "originator" (quote <$> originator)
                          ++ [member "message" (brackets ts)]))
      end
  | EvComplete downloadId =>
      Normal (braces [member "type" (quote "complete");
                      member "downloadId" (quote downloadId);
                      member "message" (quote "Download completed successfully")])
  | EvError downloadId message =>
      Normal (braces [member "type" (quote "error");
                      member "downloadId" (quote downloadId);
                      member "message" (quote message)])
  | EvCancelled downloadId =>
      Normal (braces [member "type" (quote "cancelled");
                      member "downloadId" (quote downloadId);
                      member "message" (quote "Download cancelled")])
  end.

(** A WebSocket of [wss.clients]: its [readyState] (0 CONNECTING, 1 OPEN,
    2 CLOSING, 3 CLOSED) and the frames handed to its [send] so far. *)
Record Client : Type := {
  readyState : nat;
  frames : list string
}.

Definition OPEN : nat := 1.

Definition send (text : string) (c : Client) : Client :=
  {| readyState := readyState c; frames := frames c ++ [text] |}.

(** Lines 36-42, the loop of [broadcast]: [forEach] visits the clients in
    order; the callback serializes [data] anew for every open client, and
    an exception thrown there ends the loop and reaches the caller
    ([true] in the second component). *)
Fixpoint forEach_client (data : Event) (cs : list Client) : list Client * bool :=
  match cs with
  | [] => ([], false)
  | client :: rest =>
      if Nat.eqb (readyState client) OPEN then
        match JSON_stringify data with
        | Throw => (client :: rest, true)
        | Normal text =>
            let '(rest', threw) := forEach_client data rest in
            (send text client :: rest', threw)
        end
      else
        let '(rest', threw) := forEach_client data rest in
        (client :: rest', threw)
  end.

(* ===================================================================== *)
(** ** The server state                                                  *)
(* ===================================================================== *)

(** What one [POST /api/download] call creates and its two continuations
    close over: the identifier, the downloader (its constructor
    arguments), the [AbortController] ([aborted] is
    [abortController.signal.aborted]) and the promise returned by
    [downloader.start] ([settled] once it is fulfilled or rejected). *)
Record Session : Type := {
  downloadId : string;
  targetUrl : JsOpt;
  options : DownloaderOptions;
  aborted : bool;
  settled : bool
}.

(** A session is named by its position in [sessions]; the entry
    [{ downloader, abortController }] stored in [activeDownloads] is that
    name. *)
Abbreviation SessionRef := nat (only parsing).

(** A JavaScript [Map] with string keys: entries in insertion order. *)
Definition JsMap (V : Type) : Type := list (string * V).

Fixpoint Map_get {V} (k : string) (m : JsMap V) : option V :=
  match m with
  | [] => None
  | (k', v) :: rest => if String.eqb k' k then Some v else Map_get k rest
  end.

Fixpoint Map_set {V} (k : string) (v : V) (m : JsMap V) : JsMap V :=
  match m with
  | [] => [(k, v)]
  | (k', v') :: rest =>
      if String.eqb k' k then (k, v) :: rest else (k', v') :: Map_set k v rest
  end.

Definition Map_delete {V} (k : string) (m : JsMap V) : JsMap V :=
  List.filter (fun e => negb (String.eqb (fst e) k)) m.

Definition Map_keys {V} (m : JsMap V) : list string := fst <$> m.

(** [published] is a history variable: the argument of every [broadcast]
    call so far, oldest first. The code keeps no such list. *)
Record Server : Type := {
  activeDownloads : JsMap SessionRef;
  sessions : list Session;
  clients : list Client;
  published : list Event
}.

Definition initial : Server :=
  {| activeDownloads := []; sessions := []; clients := []; published := [] |}.

Definition with_activeDownloads (m : JsMap SessionRef) (st : Server) : Server :=
  {| activeDownloads := m; sessions := sessions st;
     clients := clients st; published := published st |}.

Definition with_sessions (ss : list Session) (st : Server) : Server :=
  {| activeDownloads := activeDownloads st; sessions := ss;
     clients := clients st; published := published st |}.

Definition with_clients (cs : list Client) (st : Server) : Server :=
  {| activeDownloads := activeDownloads st; sessions := sessions st;
     clients := cs; published := published st |}.

(** Lines 36-42. The second component tells whether the call threw. *)
Definition broadcast (data : Event) (st : Server) : Server * bool :=
  let '(cs, threw) := forEach_client data (clients st) in
  ({| activeDownloads := activeDownloads st; sessions := sessions st;
      clients := cs; published := published st ++ [data] |}, threw).

(** An HTTP response: [res.status(n).json(body)]. *)
Record Response : Type := {
  status : nat;
  body : Json
}.

Definition json (status : nat) (fields : list (string * Json)) : Response :=
  {| status := status; body := JObject fields |}.

(* ===================================================================== *)
(** ** [WebLogger] and the request handlers                              *)
(* ===================================================================== *)

(** A [LogEntry] (declared in lib/utils/logging/Logger.js): severity,
    originating component (when the caller names one) and the message
    parts. *)
Record LogEntry : Type := {
  level : string;
  originator : option string;
  message : list Value
}.

(** How [new ImageFapDownloader(url, {...})] ends. When it throws, the
    handler reports [error.message] if the thrown value is an [Error]
    ([Some]) and a fixed text otherwise. *)
Inductive Construction : Type :=
| Constructed
| ConstructorThrew (error_message : option string).

(** What the promise of [downloader.start] is rejected with: an [Error]
    with its message, or any other value. *)
Inductive Reason : Type :=
| ReasonError (error_message : string)
| ReasonOther.

(** What can happen to the server: a request, the settling of the promise
    that [downloader.start] returned for a session, a call of
    [webLogger.log] by a running download, and the life of a socket
    ([ws] adds an accepted socket, open, to [wss.clients]; a socket that
    closes is skipped by [broadcast] from then on, which is all that its
    removal from [wss.clients] by [ws] changes here). *)
Inductive Input : Type :=
| PostDownload (req_body : Json) (now : Z) (ctor : Construction)
| PostCancel (id : string)
| GetDownloads
| StartFulfilled (s : SessionRef)
| StartRejected (s : SessionRef) (error : Reason)
| LoggerLog (h : Heap) (entry : option LogEntry)
| Connection
| SocketState (i : nat) (readyState : nat).

Definition is_null (v : Value) : bool :=
  match v with VNull => true | _ => false end.

(** The object literal of lines 52-58, read off an [Error]. *)
Definition error_record (h : Heap) (m : Value) : Part :=
  match m with
  | VRef l =>
      match heap_get h l with
      | OError name message stack cause _ => PErrorRecord name message stack cause
      | _ => PValue m
      end
  | _ => PValue m
  end.

(** The promise of a session settles. *)
Definition set_settled (x : Session) : Session :=
  {| downloadId := downloadId x; targetUrl := targetUrl x; options := options x;
     aborted := aborted x; settled := true |}.

(** [signal.aborted] of a session becomes true. *)
Definition set_aborted (x : Session) : Session :=
  {| downloadId := downloadId x; targetUrl := targetUrl x; options := options x;
     aborted := true; settled := settled x |}.

Section WebServer.

(** [util.inspect(m, { depth, colors: false })], Node's own. *)
Variable util_inspect : Heap -> Value -> nat -> string.

(** Lines 49-65, the callback of [entry.message.map]. *)
Definition serialize_part (h : Heap) (m : Value) : Part :=
  if instanceof_Error h m then error_record h m
  else if String.eqb (typeof h m) "object" && negb (is_null m)
       then PText (util_inspect h m 3)
  else PValue m.

(** Lines 46-74, [WebLogger.log]. *)
Definition WebLogger_log (h : Heap) (entry : option LogEntry) (st : Server)
    : Server * bool :=
  match entry with
  | Some e =>
      broadcast (EvLog h (level e) (originator e) (serialize_part h <$> message e)) st
  | None => (st, false)
  end.

(** Lines 86-160, [POST /api/download]. [downloader.start] is an async
    method: the call returns a pending promise, and its two
    continuations run later ([settle_fulfilled], [settle_rejected]). *)
Definition post_download (req_body : Json) (now : Z) (ctor : Construction)
    (st : Server) : Server * Response :=
  let url := prop req_body "url" in
  let outDir := prop req_body "outDir" in
  let options := prop req_body "options" in
  if negb (truthy url) || negb (truthy outDir) then
    (st, json 400 [("error", JString "URL and output directory are required")])
  else
    let downloadId := toString now in
    match ctor with
    | ConstructorThrew msg =>
        (st, json 500 [("error", JString (default "Failed to start download" msg))])
    | Constructed =>
        let session :=
          {| downloadId := downloadId;
             targetUrl := url;
             options := downloader_options outDir options;
             aborted := false;
             settled := false |} in
        let s := length (sessions st) in
        let st1 := with_sessions (sessions st ++ [session]) st in
        let st2 := with_activeDownloads (Map_set downloadId s (activeDownloads st1)) st1 in
        (st2, json 200 [("success", JBool true);
                        ("downloadId", JString downloadId);
                        ("message", JString "Download started")])
    end.

(** Lines 129-136, the callback given to [then]. *)
Definition on_fulfilled (downloadId : string) (st : Server) : Server * bool :=
  let '(st1, threw) := broadcast (EvComplete downloadId) st in
  if threw then (st1, true)
  else (with_activeDownloads (Map_delete downloadId (activeDownloads st1)) st1, false).

Definition rejection_message (error : Reason) : string :=
  match error with
  | ReasonError m => m
  | ReasonOther => "Unknown error occurred"
  end.

(** Lines 137-146, the callback given to [catch]; [s] is the session
    whose [abortController] it closes over. *)
Definition on_rejected (downloadId : string) (s : SessionRef) (error : Reason)
    (st : Server) : Server * bool :=
  let signal_aborted := default false (aborted <$> sessions st !! s) in
  let '(st1, threw) :=
    if negb signal_aborted
    then broadcast (EvError downloadId (rejection_message error)) st
    else (st, false) in
  if threw then (st1, true)
  else (with_activeDownloads (Map_delete downloadId (activeDownloads st1)) st1, false).

Definition mark_settled (s : SessionRef) (st : Server) : Server :=
  with_sessions (alter set_settled s (sessions st)) st.

(** [start(...).then(f).catch(g)] when the promise of session [s] is
    fulfilled: [f] runs, and [g] runs too should [f] throw (it cannot:
    see [broadcast_terminal]). A promise settles once: for a session
    that is unknown or already settled nothing happens. *)
Definition settle_fulfilled (s : SessionRef) (st : Server) : Server :=
  match sessions st !! s with
  | Some x =>
      if settled x then st
      else
        let '(st1, threw) := on_fulfilled (downloadId x) (mark_settled s st) in
        if threw then fst (on_rejected (downloadId x) s (ReasonError "TypeError") st1)
        else st1
  | None => st
  end.

(** The same chain when the promise is rejected with [error]. *)
Definition settle_rejected (s : SessionRef) (error : Reason) (st : Server) : Server :=
  match sessions st !! s with
  | Some x =>
      if settled x then st
      else fst (on_rejected (downloadId x) s error (mark_settled s st))
  | None => st
  end.

(** [abortController.abort()] of session [s]. *)
Definition abort (s : SessionRef) (st : Server) : Server :=
  with_sessions (alter set_aborted s (sessions st)) st.

(** Lines 162-180, [POST /api/download/:id/cancel]. An exception of
    [broadcast] would leave the handler for Express to answer with 500. *)
Definition post_cancel (id : string) (st : Server) : Server * Response :=
  match Map_get id (activeDownloads st) with
  | None => (st, json 404 [("error", JString "Download not found")])
  | Some download =>
      let st1 := abort download st in
      let st2 := with_activeDownloads (Map_delete id (activeDownloads st1)) st1 in
      let '(st3, threw) := broadcast (EvCancelled id) st2 in
      if threw then (st3, {| status := 500; body := JNull |})
      else (st3, json 200 [("success", JBool true);
                           ("message", JString "Download cancelled")])
  end.


(** The identifiers that [GET /api/downloads] lists. *)
Definition list_ids (st : Server) : list string := Map_keys (activeDownloads st).

Definition set_readyState (rs : nat) (c : Client) : Client :=
  {| readyState := rs; frames := frames c |}.

(** One input, handled to completion (a handler and a continuation are
    synchronous code: nothing else runs in between). *)
Definition step (st : Server) (i : Input) : Server :=
  match i with
  | PostDownload req_body now ctor => fst (post_download req_body now ctor st)
  | PostCancel id => fst (post_cancel id st)
  | GetDownloads => st
  | StartFulfilled s => settle_fulfilled s st
  | StartRejected s error => settle_rejected s error st
  | LoggerLog h entry => fst (WebLogger_log h entry st)
  | Connection =>
      with_clients (clients st ++ [{| readyState := OPEN; frames := [] |}]) st
  | SocketState i rs => with_clients (alter (set_readyState rs) i (clients st)) st
  end.

Definition run (inputs : list Input) (st : Server) : Server :=
  fold_left step inputs st.

End WebServer.

(* ===================================================================== *)
(** ** [POST /api/validate-path]                                         *)
(* ===================================================================== *)

(** [fs.Stats], as far as the handler looks at it. *)
Record Stats : Type := {
  stats_isDirectory : bool
}.

(** Node's [fs] and [path] as the handler uses them. [existsSync] never
    throws; [statSync] and [accessSync(p, fs.constants.W_OK)] throw on
    failure; [path.parse] throws a [TypeError] with some message when its
    argument is not a string. *)
Record Platform : Type := {
  existsSync : string -> bool;
  statSync : string -> Completion Stats;
  accessSync_W_OK : string -> Completion unit;
  path_parse_dir : string -> string;
  ERR_INVALID_ARG_TYPE : Json -> string
}.

Module PathInfo.

(** The object of lines 248-258. *)
Record t : Type := {
  valid : bool;
  exists_ : bool;
  isDirectory : bool;
  writable : bool;
  parentExists : bool;
  parentPath : string;
  message : string
}.

Definition to_json (r : t) : list (string * Json) :=
  [("valid", JBool (valid r));
   ("exists", JBool (exists_ r));
   ("isDirectory", JBool (isDirectory r));
   ("writable", JBool (writable r));
   ("parentExists", JBool (parentExists r));
   ("parentPath", JString (parentPath r));
   ("message", JString (message r))].

End PathInfo.

(** Lines 217-221: does the parent exist, as a directory? *)
Definition probe_parent (fs : Platform) (parentPath : string) : bool :=
  if existsSync fs parentPath then
    match statSync fs parentPath with
    | Normal stats => stats_isDirectory stats
    | Throw => false
    end
  else false.

(** Lines 224-246: [(exists, isDirectory, writable)]. An exception of
    [statSync] leaves the [try] with [exists] already set. *)
Definition probe_path (fs : Platform) (dirPath : string) (parentExists : bool)
    : bool * bool * bool :=
  if existsSync fs dirPath then
    match statSync fs dirPath with
    | Throw => (true, false, false)
    | Normal stats =>
        (true, stats_isDirectory stats,
         match accessSync_W_OK fs dirPath with
         | Normal _ => true
         | Throw => false
         end)
    end
  else (false, false, parentExists).

(** Lines 211-258 for a string [dirPath]. *)
Definition validate (fs : Platform) (dirPath : string) : PathInfo.t :=
  let parentPath := path_parse_dir fs dirPath in
  let parentExists := probe_parent fs parentPath in
  let '(exists_, isDirectory, writable) := probe_path fs dirPath parentExists in
  {| PathInfo.valid := if exists_ then isDirectory && writable else parentExists;
     PathInfo.exists_ := exists_;
     PathInfo.isDirectory := isDirectory;
     PathInfo.writable := writable;
     PathInfo.parentExists := parentExists;
     PathInfo.parentPath := parentPath;
     PathInfo.message :=
       if exists_
       then (if isDirectory
             then (if writable
                   then "Directory is valid and writable"
                   else "Directory exists but is not writable")
             else "Path exists but is not a directory")
       else (if parentExists
             then "Directory will be created"
             else "Parent directory does not exist") |}.

(** Lines 203-265. *)
Definition post_validate_path (fs : Platform) (req_body : Json) : Response :=
  let dirPath := prop req_body "dirPath" in
  if negb (truthy dirPath) then json 400 [("error", JString "Path is required")]
  else
    match dirPath with
    | Some (JString path) => json 200 (PathInfo.to_json (validate fs path))
    | Some other =>
        json 400 [("valid", JBool false);
                  ("error", JString (ERR_INVALID_ARG_TYPE fs other))]
    | None => json 400 [("error", JString "Path is required")]
    end.


(* ===================================================================== *)
(** ** Notions used in the statements                                    *)
(* ===================================================================== *)

Definition is_open (c : Client) : bool := Nat.eqb (readyState c) OPEN.

(** What a successful [broadcast] of [text] does to one client. *)
Definition deliver (text : string) (c : Client) : Client :=
  if is_open c then send text c else c.

(** A session has reached a terminal outcome when its cancellation was
    accepted or the promise of its download has settled. *)
Definition terminal (x : Session) : bool := aborted x || settled x.

(** Every entry of [activeDownloads] is the session created under that
    identifier, and that session has not reached a terminal outcome. *)
Definition registry_live (st : Server) : Prop :=
  forall id s, Map_get id (activeDownloads st) = Some s ->
    exists x, sessions st !! s = Some x /\ downloadId x = id /\ terminal x = false.

(** A session whose cancellation was accepted saw its [cancelled] event
    published. *)
Definition aborted_published (st : Server) : Prop :=
  forall s x, sessions st !! s = Some x -> aborted x = true ->
    EvCancelled (downloadId x) ∈ published st.

(** No two sessions were created under the same identifier. *)
Definition unique_ids (st : Server) : Prop :=
  forall s1 s2 x1 x2,
    sessions st !! s1 = Some x1 -> sessions st !! s2 = Some x2 ->
    downloadId x1 = downloadId x2 -> s1 = s2.

(** A [cancelled] event was published for an identifier only when a
    session created under it was aborted. *)
Definition cancelled_aborted (st : Server) : Prop :=
  forall id, EvCancelled id ∈ published st ->
    exists s x, sessions st !! s = Some x /\ downloadId x = id /\ aborted x = true.

(** Both conditions together: what every reachable state satisfies. *)
Definition invariant (st : Server) : Prop := registry_live st /\ aborted_published st.

(** What a step may do to a session that exists: nothing, or settle it, or
    abort it. Its identifier stays, and neither flag is ever reset. *)
Definition evolves (x y : Session) : Prop :=
  downloadId y = downloadId x /\
  (aborted x = true -> aborted y = true) /\
  (settled x = true -> settled y = true).

(** The three events that end a session, against [log] events. *)
Definition is_log (data : Event) : bool :=
  match data with EvLog _ _ _ _ => true | _ => false end.

(** The frame a serializable event is sent as. *)
Definition text_of (data : Event) : string :=
  match JSON_stringify data with Normal t => t | Throw => "" end.

(** A field is absent from a request body when reading it gives [undefined] or
    [null]: the two cases in which [??] takes its right operand. *)
Definition absent (o : JsOpt) : Prop := o = None \/ o = Some JNull.


(* ===================================================================== *)
(** ** Sample data for the concrete runs                                 *)
(* ===================================================================== *)

(** A stand-in for [util.inspect] where a run needs one. *)
Definition inspect_sample (h : Heap) (m : Value) (depth : nat) : string :=
  match m with
  | VRef l => "<ref *" +:+ toString (Z.of_nat l) +:+ "> depth " +:+ toString (Z.of_nat depth)
  | _ => "primitive"
  end.

(** [{ url, outDir }], no [options]. *)
Definition sample_request : Json :=
  JObject [("url", JString "https://example.org/gallery/1");
           ("outDir", JString "/home/u/Downloads/imagefap")].


(** A heap with an object that refers to itself, a function, an [Error]
    with a stack and no cause, and an [Error] whose cause is the circular
    object. *)
Definition sample_heap : Heap :=
  [ OPlain [("self", VRef 0); ("n", VNumber (Int 1))];
    OFunction;
    OError "RangeError" "page out of range" (Some "RangeError: page out of range\n  at f") VUndefined [];
    OError "Error" "wrapped" None (VRef 0) [] ].

(** A server with one connected, open observer and nothing else. *)
Definition one_open_client : Server :=
  {| activeDownloads := []; sessions := [];
     clients := [ {| readyState := 1; frames := [] |} ]; published := [] |}.

(** A server with an open observer and one that has closed. *)
Definition open_and_closed : Server :=
  {| activeDownloads := []; sessions := [];
     clients := [ {| readyState := 1; frames := [] |};
                  {| readyState := 3; frames := [] |} ];
     published := [] |}.

(* ===================================================================== *)
(** ** Further notions used in the statements                            *)
(* ===================================================================== *)

(** The frame an event is sent as, if it can be serialized. *)
Definition frame_of (data : Event) : list string :=
  match JSON_stringify data with
  | Normal text => [text]
  | Throw => []
  end.

(** The frames of a sequence of events, in order. *)
Definition frames_of (events : list Event) : list string :=
  concat (frame_of <$> events).

(** Every session that has reached no terminal outcome is the entry under
    its identifier. *)
Definition live_registered (st : Server) : Prop :=
  forall s x, sessions st !! s = Some x -> terminal x = false ->
    Map_get (downloadId x) (activeDownloads st) = Some s.

(** From [st] to [st'] the registry lost identifier [id] and nothing else,
    and no session but [s] was touched. *)
Definition removes_only (id : string) (s : SessionRef) (st st' : Server) : Prop :=
  list_ids st' = List.filter (fun k => negb (String.eqb k id)) (list_ids st) /\
  (forall id', id' <> id ->
     Map_get id' (activeDownloads st') = Map_get id' (activeDownloads st)) /\
  (forall s', s' <> s -> sessions st' !! s' = sessions st !! s') /\
  length (sessions st') = length (sessions st).

(** The path is a directory that exists and can be written to. *)
Definition writable_directory (fs : Platform) (path : string) : Prop :=
  existsSync fs path = true /\
  (exists stats, statSync fs path = Normal stats /\ stats_isDirectory stats = true) /\
  accessSync_W_OK fs path = Normal tt.

(** The path is a directory that exists. *)
Definition existing_directory (fs : Platform) (path : string) : Prop :=
  existsSync fs path = true /\
  exists stats, statSync fs path = Normal stats /\ stats_isDirectory stats = true.

(* ===================================================================== *)
(** ** The page script (src/web/public/app.js): handling of messages     *)
(* ===================================================================== *)

Module App.

(** [String(v)] for a value of a parsed message; an array is joined with
    commas, [null] elements as the empty string. Numbers stand for
    integers, as in [Json]. *)
Fixpoint ToString (v : Json) : string :=
  match v with
  | JNull => "null"
  | JBool b => if b then "true" else "false"
  | JNumber n => toString n
  | JString s => s
  | JArray elems =>
      String.concat ","
        (List.map (fun e => match e with JNull => "" | _ => ToString e end) elems)
  | JObject _ => "[object Object]"
  end.

(** The same for the result of reading a property. *)
Definition ToString_opt (o : JsOpt) : string :=
  match o with
  | None => "undefined"
  | Some v => ToString v
  end.

Definition newline : string := String (ascii_of_nat 10) EmptyString.

(** [s.includes(sub)] *)
Fixpoint includes (s sub : string) : bool :=
  String.prefix sub s ||
  match s with
  | EmptyString => false
  | String _ rest => includes rest sub
  end.

Definition is_digit (c : ascii) : bool :=
  let n := nat_of_ascii c in Nat.leb 48 n && Nat.leb n 57.

(** The longest run of digits a string starts with, and what follows. *)
Fixpoint digits_run (s : string) : string * string :=
  match s with
  | String c rest =>
      if is_digit c
      then let '(d, r) := digits_run rest in (String c d, r)
      else (EmptyString, s)
  | EmptyString => (EmptyString, EmptyString)
  end.

Fixpoint drop_chars (n : nat) (s : string) : string :=
  match n, s with
  | S n', String _ rest => drop_chars n' rest
  | _, _ => s
  end.

(** [/Downloading (\d+) images/] tried at the start of [s]: the group. The
    digits are followed by a space, so only the longest run can match. *)
Definition match_here (s : string) : option string :=
  if String.prefix "Downloading " s then
    let '(d, r) := digits_run (drop_chars 12 s) in
    if negb (String.eqb d "") && String.prefix " images" r then Some d else None
  else None.

(** [s.match(/Downloading (\d+) images/)]: group 1 of the leftmost match. *)
Fixpoint match_images (s : string) : option string :=
  match match_here s with
  | Some d => Some d
  | None =>
      match s with
      | EmptyString => None
      | String _ rest => match_images rest
      end
  end.

(** [parseInt] of a string of digits. *)
Definition parseInt (digits : string) : Z :=
  fold_left (fun acc c => (10 * acc + Z.of_nat (nat_of_ascii c - 48))%Z)
            (list_ascii_of_string digits) 0%Z.

(** [downloadStats]; the counters are integers. *)
Record DownloadStats : Type := {
  total : Z;
  downloaded : Z;
  skipped : Z;
  errors : Z
}.

(** One child of [logContainer]: the class of the entry and the text of
    its two spans. *)
Record LogLine : Type := {
  className : string;
  timestamp : string;
  text : string
}.

(** What the script keeps and what it writes on the page. The current
    download is [null] or whatever [downloadId] the server answered. *)
Record Page : Type := {
  currentDownloadId : JsOpt;
  downloadStats : DownloadStats;
  startBtn_disabled : bool;
  cancelBtn_disabled : bool;
  progressBar_width : string;
  progressBar_textContent : string;
  progressText : string;
  logContainer : list LogLine
}.

(** Lines 148-166, [addLog]; [now] is what
    [new Date().toLocaleTimeString()] gives, and [level] is [undefined]
    where the caller passes none. *)
Definition addLog (now : string) (message level : JsOpt) (p : Page) : Page :=
  let level := match level with None => "info" | Some v => ToString v end in
  {| currentDownloadId := currentDownloadId p;
     downloadStats := downloadStats p;
     startBtn_disabled := startBtn_disabled p;
     cancelBtn_disabled := cancelBtn_disabled p;
     progressBar_width := progressBar_width p;
     progressBar_textContent := progressBar_textContent p;
     progressText := progressText p;
     logContainer :=
       logContainer p ++
       [{| className := "log-entry " +:+ level;
           timestamp := "[" +:+ now +:+ "]";
           text := " " +:+ ToString_opt message |}] |}.

(** Lines 383-387, [resetDownloadState]. *)
Definition resetDownloadState (p : Page) : Page :=
  {| currentDownloadId := Some JNull;
     downloadStats := downloadStats p;
     startBtn_disabled := false;
     cancelBtn_disabled := true;
     progressBar_width := progressBar_width p;
     progressBar_textContent := progressBar_textContent p;
     progressText := progressText p;
     logContainer := logContainer p |}.

Definition set_progressText (t : string) (p : Page) : Page :=
  {| currentDownloadId := currentDownloadId p;
     downloadStats := downloadStats p;
     startBtn_disabled := startBtn_disabled p;
     cancelBtn_disabled := cancelBtn_disabled p;
     progressBar_width := progressBar_width p;
     progressBar_textContent := progressBar_textContent p;
     progressText := t;
     logContainer := logContainer p |}.

Definition set_progressBar (t : string) (p : Page) : Page :=
  {| currentDownloadId := currentDownloadId p;
     downloadStats := downloadStats p;
     startBtn_disabled := startBtn_disabled p;
     cancelBtn_disabled := cancelBtn_disabled p;
     progressBar_width := t;
     progressBar_textContent := t;
     progressText := progressText p;
     logContainer := logContainer p |}.

Definition set_downloadStats (s : DownloadStats) (p : Page) : Page :=
  {| currentDownloadId := currentDownloadId p;
     downloadStats := s;
     startBtn_disabled := startBtn_disabled p;
     cancelBtn_disabled := cancelBtn_disabled p;
     progressBar_width := progressBar_width p;
     progressBar_textContent := progressBar_textContent p;
     progressText := progressText p;
     logContainer := logContainer p |}.

Definition processed (s : DownloadStats) : Z := (downloaded s + skipped s + errors s)%Z.

Section Script.

(** [Math.round((processed / total) * 100)] for a positive [total]: a
    floating-point computation, taken as given. *)
Variable Math_round_percent : Z -> Z -> Z.

(** Lines 135-145, [updateProgress]. *)
Definition updateProgress (p : Page) : Page :=
  let s := downloadStats p in
  if Z.ltb 0 (total s) then
    let percentage := toString (Math_round_percent (processed s) (total s)) +:+ "%" in
    set_progressText
      ("Downloaded: " +:+ toString (downloaded s) +:+ " | Skipped: " +:+
       toString (skipped s) +:+ " | Errors: " +:+ toString (errors s))
      (set_progressBar percentage p)
  else set_progressText "Processing..." p.

(** [o === text] for a string [text]. *)
Definition is_string (text : string) (o : JsOpt) : bool :=
  match o with
  | Some (JString s) => String.eqb s text
  | _ => false
  end.

(** [typeof m === 'object' && m !== null] *)
Definition is_object (m : Json) : bool :=
  match m with
  | JObject _ | JArray _ => true
  | _ => false
  end.

(** Lines 74-79, the callback of [data.message.map]. *)
Definition format_part (m : Json) : Json :=
  if is_object m && is_string "error" (prop m "type") then
    JString (ToString_opt (prop m "name") +:+ ": " +:+ ToString_opt (prop m "message") +:+
             (if truthy (prop m "stack")
              then newline +:+ ToString_opt (prop m "stack") else ""))
  else m.

(** [parts.join(sep)] *)
Definition join (sep : string) (parts : list Json) : string :=
  String.concat sep
    (List.map (fun e => match e with JNull => "" | _ => ToString e end) parts).

(** Lines 72-83: [message]. *)
Definition log_message (data : Json) : JsOpt :=
  match prop data "message" with
  | Some (JArray parts) => Some (JString (join " " (List.map format_part parts)))
  | other => other
  end.

(** Lines 90-108: the counters read off a message. *)
Definition count_message (message : string) (p : Page) : Page :=
  let s := downloadStats p in
  if includes message ("Downloaded " +:+ dquote) then
    updateProgress
      (set_downloadStats {| total := total s; downloaded := (downloaded s + 1)%Z;
                            skipped := skipped s; errors := errors s |} p)
  else if includes message "Skipping existing" then
    updateProgress
      (set_downloadStats {| total := total s; downloaded := downloaded s;
                            skipped := (skipped s + 1)%Z; errors := errors s |} p)
  else if includes message "Error downloading" then
    updateProgress
      (set_downloadStats {| total := total s; downloaded := downloaded s;
                            skipped := skipped s; errors := (errors s + 1)%Z |} p)
  else if includes message "Downloading" && includes message "images" then
    match match_images message with
    | Some digits =>
        updateProgress
          (set_downloadStats {| total := (total s + parseInt digits)%Z;
                                downloaded := downloaded s;
                                skipped := skipped s; errors := errors s |} p)
    | None => p
    end
  else p.

(** Lines 70-109, [handleLogMessage]. *)
Definition handleLogMessage (now : string) (data : Json) (p : Page) : Page :=
  let message := log_message data in
  let fullMessage :=
    if truthy (prop data "originator")
    then Some (JString (ToString_opt (prop data "originator") +:+ ": " +:+
                        ToString_opt message))
    else message in
  let p1 := addLog now fullMessage (prop data "level") p in
  match message with
  | Some (JString s) => count_message s p1
  | _ => p1
  end.

(** Lines 112-118. *)
Definition handleDownloadComplete (now : string) (data : Json) (p : Page) : Page :=
  resetDownloadState
    (set_progressText "Download completed successfully!"
       (set_progressBar "100%"
          (addLog now (prop data "message") (Some (JString "success")) p))).

(** Lines 121-125. *)
Definition handleDownloadError (now : string) (data : Json) (p : Page) : Page :=
  resetDownloadState
    (set_progressText "Download failed"
       (addLog now (Some (JString ("Error: " +:+ ToString_opt (prop data "message"))))
          (Some (JString "error")) p)).

(** Lines 128-132. *)
Definition handleDownloadCancelled (now : string) (data : Json) (p : Page) : Page :=
  resetDownloadState
    (set_progressText "Download cancelled"
       (addLog now (prop data "message") (Some (JString "warning")) p)).

(** Lines 52-67, [handleWebSocketMessage]. Reading [data.type] of [null]
    throws. *)
Definition handleWebSocketMessage (now : string) (data : Json) (p : Page)
    : Completion Page :=
  match data with
  | JNull => Throw
  | _ =>
      Normal
        (match prop data "type" with
         | Some (JString type) =>
             if String.eqb type "log" then handleLogMessage now data p
             else if String.eqb type "complete" then handleDownloadComplete now data p
             else if String.eqb type "error" then handleDownloadError now data p
             else if String.eqb type "cancelled" then handleDownloadCancelled now data p
             else p
         | _ => p
         end)
  end.

(** Lines 31-38, [ws.onmessage]: [parsed] is how [JSON.parse(event.data)]
    ends; whatever is thrown inside the [try] is logged to the console
    and the page stays as it was. *)
Definition onmessage (now : string) (parsed : Completion Json) (p : Page) : Page :=
  match parsed with
  | Throw => p
  | Normal data =>
      match handleWebSocketMessage now data p with
      | Normal p' => p'
      | Throw => p
      end
  end.

End Script.

(** Lines 363-369: the request a click on the cancel button sends, if
    any: the path of the [POST]. *)
Definition cancel_click (p : Page) : option string :=
  if truthy (currentDownloadId p)
  then Some ("/api/download/" +:+ ToString_opt (currentDownloadId p) +:+ "/cancel")
  else None.

End App.

(** What handling a [log] message leaves as it was. *)
Definition same_session (p p' : App.Page) : Prop :=
  App.currentDownloadId p' = App.currentDownloadId p /\
  App.startBtn_disabled p' = App.startBtn_disabled p /\
  App.cancelBtn_disabled p' = App.cancelBtn_disabled p /\
  App.logContainer p' = App.logContainer p.

(** A page in the middle of download [17], nothing counted yet. *)
Definition sample_page : App.Page :=
  {| App.currentDownloadId := Some (JString "17");
     App.downloadStats := {| App.total := 0; App.downloaded := 0;
                             App.skipped := 0; App.errors := 0 |};
     App.startBtn_disabled := true; App.cancelBtn_disabled := false;
     App.progressBar_width := "0%"; App.progressBar_textContent := "";
     App.progressText := "Starting download..."; App.logContainer := [] |}.

(** A stand-in for the rounded percentage where a run needs one. *)
Definition percent_sample (processed total : Z) : Z := (100 * processed / total)%Z.

(* ===================================================================== *)
(** * Properties                                                         *)
(* ===================================================================== *)

(** ** [JSON.stringify] always ends *)

Lemma stack_bound (h : Heap) (stack : list loc) :
  NoDup stack -> (forall l, l ∈ stack -> l < length h) -> length stack <= length h.
Proof.
  intros Hnd Hin.
  assert (H : length stack <= length (seq 0 (length h))).
  { apply NoDup_incl_length.
    - by apply NoDup_ListNoDup.
    - intros l Hl. apply in_seq. apply list_elem_of_In in Hl.
      specialize (Hin l Hl). lia. }
  by rewrite List.length_seq in H.
Qed.

Lemma stringify_elems_fuel rec elems :
  (forall v, is_Some (rec v)) -> is_Some (stringify_elems rec elems).
Proof.
  intros Hrec. induction elems as [|e rest IH]; simpl; [eauto|].
  destruct (Hrec e) as [[t|] ->]; [|eauto].
  destruct IH as [[ts|] ->]; eauto.
Qed.

Lemma stringify_props_fuel rec props :
  (forall v, is_Some (rec v)) -> is_Some (stringify_props rec props).
Proof.
  intros Hrec. induction props as [|[k v] rest IH]; simpl; [eauto|].
  destruct (Hrec v) as [[t|] ->]; [|eauto].
  destruct IH as [[ts|] ->]; eauto.
Qed.

(** The objects on the stack are distinct objects of the heap, so the
    walk is never deeper than the heap is large. *)
Lemma stringify_value_fuel (fuel : nat) (h : Heap) (stack : list loc) (v : Value) :
  NoDup stack -> (forall l, l ∈ stack -> l < length h) ->
  length h < fuel + length stack ->
  is_Some (stringify_value fuel h stack v).
Proof.
  revert stack v. induction fuel as [|fuel IH]; intros stack v Hnd Hin Hlen.
  - pose proof (stack_bound h stack Hnd Hin). simpl in Hlen. lia.
  - destruct v; simpl; eauto.
    destruct (decide (l ∈ stack)) as [Hd|Hd].
    { rewrite (bool_decide_eq_true_2 _ Hd). destruct (heap_get h l); eauto. }
    rewrite (bool_decide_eq_false_2 _ Hd).
    unfold heap_get. destruct (h !! l) as [o|] eqn:Hl; simpl; [|eauto].
    assert (Hrec : forall v, is_Some (stringify_value fuel h (l :: stack) v)).
    { intros v. apply IH.
      - by constructor.
      - intros l' [->|?]%elem_of_cons; [by eapply lookup_lt_Some|auto].
      - simpl. lia. }
    destruct o; eauto.
    + destruct (stringify_props_fuel _ props Hrec) as [[?|] ->]; eauto.
    + destruct (stringify_elems_fuel _ elems Hrec) as [[?|] ->]; eauto.
    + destruct (stringify_props_fuel _ props Hrec) as [[?|] ->]; eauto.
Qed.

Lemma JSON_stringify_value_fuel (h : Heap) (v : Value) :
  stringify_value (S (length h)) h [] v = Some (JSON_stringify_value h v).
Proof.
  unfold JSON_stringify_value.
  destruct (stringify_value_fuel (S (length h)) h [] v) as [r ->]; simpl; auto.
  - constructor.
  - intros l Hl. by apply elem_of_nil in Hl.
  - lia.
Qed.



(** ** The [Map] *)

Section MapFacts.
Context {V : Type}.
Implicit Types (m : JsMap V) (k : string) (v : V).

Lemma Map_get_set_eq k v m : Map_get k (Map_set k v m) = Some v.
Proof.
  induction m as [|[k' v'] m IH]; simpl.
  - by rewrite String.eqb_refl.
  - destruct (String.eqb k' k) eqn:E; simpl.
    + by rewrite String.eqb_refl.
    + by rewrite E.
Qed.

Lemma Map_get_set_ne k k' v m : k <> k' -> Map_get k' (Map_set k v m) = Map_get k' m.
Proof.
  intros Hne. induction m as [|[k0 v0] m IH]; simpl.
  - destruct (String.eqb_spec k k'); [done|done].
  - destruct (String.eqb_spec k0 k) as [->|Hk]; simpl.
    + destruct (String.eqb_spec k k'); [done|].
      destruct (String.eqb_spec k k'); done.
    + destruct (String.eqb_spec k0 k'); [done|apply IH].
Qed.

Lemma Map_get_delete_eq k m : Map_get k (Map_delete k m) = None.
Proof.
  induction m as [|[k' v'] m IH]; simpl; [done|].
  destruct (String.eqb_spec k' k); simpl; [done|].
  destruct (String.eqb_spec k' k); done.
Qed.

Lemma Map_get_delete_ne k k' m : k <> k' -> Map_get k' (Map_delete k m) = Map_get k' m.
Proof.
  intros Hne. induction m as [|[k0 v0] m IH]; simpl; [done|].
  destruct (String.eqb_spec k0 k) as [->|Hk]; simpl.
  - destruct (String.eqb_spec k k'); done.
  - destruct (String.eqb_spec k0 k'); done.
Qed.

Lemma Map_get_delete_Some k k' v m :
  Map_get k' (Map_delete k m) = Some v -> k <> k' /\ Map_get k' m = Some v.
Proof.
  intros H. destruct (decide (k = k')) as [->|Hne].
  - by rewrite Map_get_delete_eq in H.
  - by rewrite Map_get_delete_ne in H.
Qed.

Lemma Map_keys_get k m : k ∈ Map_keys m <-> is_Some (Map_get k m).
Proof.
  unfold Map_keys. induction m as [|[k' v'] m IH]; simpl.
  - split; [intros H; by apply elem_of_nil in H|intros [? ?]; done].
  - rewrite elem_of_cons. destruct (String.eqb_spec k' k) as [->|Hk].
    + split; eauto.
    + rewrite IH. split; [intros [->|?]; done|auto].
Qed.

Lemma Map_keys_delete k m : k ∉ Map_keys (Map_delete k m).
Proof. intros [v Hv]%Map_keys_get. by rewrite Map_get_delete_eq in Hv. Qed.

End MapFacts.

(** ** [broadcast] *)

Lemma forEach_client_Normal data text cs :
  JSON_stringify data = Normal text ->
  forEach_client data cs = (deliver text <$> cs, false).
Proof.
  intros Hd. induction cs as [|c cs IH]; simpl; [done|].
  rewrite Hd, IH. unfold deliver, is_open. by destruct (Nat.eqb _ _).
Qed.

Lemma forEach_client_Throw data cs :
  JSON_stringify data = Throw ->
  forEach_client data cs = (cs, existsb is_open cs).
Proof.
  intros Hd. induction cs as [|c cs IH]; simpl; [done|].
  rewrite Hd, IH. unfold is_open. by destruct (Nat.eqb _ _).
Qed.

Lemma deliver_closed text c : is_open c = false -> deliver text c = c.
Proof. unfold deliver. by intros ->. Qed.

Lemma deliver_open text c : is_open c = true -> deliver text c = send text c.
Proof. unfold deliver. by intros ->. Qed.

Lemma existsb_is_open_filter cs : existsb is_open (List.filter is_open cs) = existsb is_open cs.
Proof.
  induction cs as [|c cs IH]; simpl; [done|].
  destruct (is_open c) eqn:E; simpl; [by rewrite E|done].
Qed.

(** The three terminal events are always serializable. *)
Lemma JSON_stringify_terminal data :
  is_log data = false -> exists text, JSON_stringify data = Normal text.
Proof. destruct data; simpl; intros; eauto; done. Qed.

Lemma broadcast_terminal data st :
  is_log data = false ->
  exists text,
    JSON_stringify data = Normal text /\
    broadcast data st =
      ({| activeDownloads := activeDownloads st; sessions := sessions st;
          clients := deliver text <$> clients st;
          published := published st ++ [data] |}, false).
Proof.
  intros Hd. destruct (JSON_stringify_terminal data Hd) as [text Ht].
  exists text. split; [done|]. unfold broadcast.
  by rewrite (forEach_client_Normal _ _ _ Ht).
Qed.

Lemma broadcast_registry data st :
  activeDownloads (fst (broadcast data st)) = activeDownloads st /\
  sessions (fst (broadcast data st)) = sessions st /\
  published (fst (broadcast data st)) = published st ++ [data].
Proof. unfold broadcast. by destruct (forEach_client data (clients st)). Qed.

Lemma is_open_spec c : is_open c = true <-> readyState c = OPEN.
Proof. unfold is_open. apply Nat.eqb_eq. Qed.

Lemma is_open_false c : is_open c = false <-> readyState c <> OPEN.
Proof. unfold is_open. apply Nat.eqb_neq. Qed.

Lemma readyState_deliver text c : readyState (deliver text c) = readyState c.
Proof. unfold deliver. by destruct (is_open c). Qed.

Lemma forEach_client_cases data cs :
  (exists text, JSON_stringify data = Normal text /\
                forEach_client data cs = (deliver text <$> cs, false)) \/
  (JSON_stringify data = Throw /\ forEach_client data cs = (cs, existsb is_open cs)).
Proof.
  destruct (JSON_stringify data) as [text|] eqn:Hd.
  - left. exists text. split; [done|by apply forEach_client_Normal].
  - right. split; [done|by apply forEach_client_Throw].
Qed.

Lemma forEach_client_filter data cs :
  snd (forEach_client data (List.filter is_open cs)) = snd (forEach_client data cs).
Proof.
  destruct (JSON_stringify data) as [text|] eqn:Hd.
  - by rewrite !(forEach_client_Normal _ _ _ Hd).
  - rewrite !(forEach_client_Throw _ _ Hd). simpl. apply existsb_is_open_filter.
Qed.


(** ** The handlers in closed form *)

(** Closed forms of the handlers and continuations that end a session. *)

Lemma broadcast_terminal_eq data st :
  is_log data = false ->
  broadcast data st =
    ({| activeDownloads := activeDownloads st; sessions := sessions st;
        clients := deliver (text_of data) <$> clients st;
        published := published st ++ [data] |}, false).
Proof.
  intros Hd. destruct (broadcast_terminal data st Hd) as (text & Ht & ->).
  unfold text_of. by rewrite Ht.
Qed.

Lemma post_cancel_found id s st :
  Map_get id (activeDownloads st) = Some s ->
  post_cancel id st =
    ({| activeDownloads := Map_delete id (activeDownloads st);
        sessions := alter set_aborted s (sessions st);
        clients := deliver (text_of (EvCancelled id)) <$> clients st;
        published := published st ++ [EvCancelled id] |},
     json 200 [("success", JBool true); ("message", JString "Download cancelled")]).
Proof.
  intros Hs. unfold post_cancel. rewrite Hs.
  by rewrite broadcast_terminal_eq.
Qed.

Lemma post_cancel_missing id st :
  Map_get id (activeDownloads st) = None ->
  post_cancel id st = (st, json 404 [("error", JString "Download not found")]).
Proof. intros Hs. unfold post_cancel. by rewrite Hs. Qed.

Lemma settle_fulfilled_pending s x st :
  sessions st !! s = Some x -> settled x = false ->
  settle_fulfilled s st =
    {| activeDownloads := Map_delete (downloadId x) (activeDownloads st);
       sessions := alter set_settled s (sessions st);
       clients := deliver (text_of (EvComplete (downloadId x))) <$> clients st;
       published := published st ++ [EvComplete (downloadId x)] |}.
Proof.
  intros Hs Hx. unfold settle_fulfilled, on_fulfilled. rewrite Hs, Hx.
  by rewrite broadcast_terminal_eq.
Qed.

Lemma settle_rejected_pending s x error st :
  sessions st !! s = Some x -> settled x = false ->
  settle_rejected s error st =
    if aborted x then
      {| activeDownloads := Map_delete (downloadId x) (activeDownloads st);
         sessions := alter set_settled s (sessions st);
         clients := clients st;
         published := published st |}
    else
      {| activeDownloads := Map_delete (downloadId x) (activeDownloads st);
         sessions := alter set_settled s (sessions st);
         clients := deliver (text_of (EvError (downloadId x) (rejection_message error)))
                      <$> clients st;
         published := published st ++ [EvError (downloadId x) (rejection_message error)] |}.
Proof.
  intros Hs Hx. unfold settle_rejected, on_rejected. rewrite Hs, Hx.
  unfold mark_settled, with_sessions; simpl.
  rewrite list_lookup_alter_eq, Hs; simpl.
  destruct (aborted x); simpl; [done|].
  by rewrite broadcast_terminal_eq.
Qed.

Lemma settle_fulfilled_done s st :
  (forall x, sessions st !! s = Some x -> settled x = true) ->
  settle_fulfilled s st = st.
Proof.
  intros H. unfold settle_fulfilled. destruct (sessions st !! s) as [x|]; [|done].
  by rewrite (H x eq_refl).
Qed.

Lemma settle_rejected_done s error st :
  (forall x, sessions st !! s = Some x -> settled x = true) ->
  settle_rejected s error st = st.
Proof.
  intros H. unfold settle_rejected. destruct (sessions st !! s) as [x|]; [|done].
  by rewrite (H x eq_refl).
Qed.

Lemma post_download_started req_body now st :
  truthy (prop req_body "url") = true -> truthy (prop req_body "outDir") = true ->
  post_download req_body now Constructed st =
    ({| activeDownloads := Map_set (toString now) (length (sessions st)) (activeDownloads st);
        sessions := sessions st ++
          [{| downloadId := toString now;
              targetUrl := prop req_body "url";
              options := downloader_options (prop req_body "outDir") (prop req_body "options");
              aborted := false; settled := false |}];
        clients := clients st;
        published := published st |},
     json 200 [("success", JBool true); ("downloadId", JString (toString now));
               ("message", JString "Download started")]).
Proof. intros Hu Ho. unfold post_download. by rewrite Hu, Ho. Qed.

Lemma post_download_rejected req_body now ctor st :
  truthy (prop req_body "url") && truthy (prop req_body "outDir") = false ->
  post_download req_body now ctor st =
    (st, json 400 [("error", JString "URL and output directory are required")]).
Proof.
  intros H. unfold post_download.
  destruct (truthy (prop req_body "url")), (truthy (prop req_body "outDir")); done.
Qed.

(** *** The invariant of the registry *)

Lemma invariant_initial : invariant initial.
Proof. split; intros ? ? H; done. Qed.

Lemma terminal_set_settled x : terminal (set_settled x) = true.
Proof. unfold terminal; simpl. apply orb_true_r. Qed.

Lemma invariant_remove (st : Server) (f : Session -> Session) s x cs evs :
  invariant st ->
  sessions st !! s = Some x ->
  (forall y, downloadId (f y) = downloadId y) ->
  (aborted (f x) = true -> EvCancelled (downloadId x) ∈ published st ++ evs) ->
  invariant {| activeDownloads := Map_delete (downloadId x) (activeDownloads st);
               sessions := alter f s (sessions st);
               clients := cs;
               published := published st ++ evs |}.
Proof.
  intros [Hlive Hab] Hs Hid Hnew. split.
  - intros id s' Hget; simpl in *.
    apply Map_get_delete_Some in Hget as [Hne Hget].
    destruct (Hlive id s' Hget) as (y & Hy & Hyid & Hyt).
    exists y. split_and!; [|done|done].
    rewrite list_lookup_alter_ne; [done|]. intros ->. congruence.
  - intros s' y Hy Hya; simpl in *.
    destruct (decide (s = s')) as [<-|Hne].
    + rewrite list_lookup_alter_eq, Hs in Hy. simpl in Hy. injection Hy as <-.
      rewrite Hid. auto.
    + rewrite list_lookup_alter_ne in Hy by done.
      apply elem_of_app. left. eauto.
Qed.

Lemma invariant_frame (st st' : Server) :
  activeDownloads st' = activeDownloads st ->
  sessions st' = sessions st ->
  (forall e, e ∈ published st -> e ∈ published st') ->
  invariant st -> invariant st'.
Proof.
  intros Ha Hs Hp [Hlive Hab]. split.
  - intros id s. rewrite Ha, Hs. apply Hlive.
  - intros s x. rewrite Hs. intros Hx Hax. apply Hp. eauto.
Qed.

Section Invariant.
Variable util_inspect : Heap -> Value -> nat -> string.

Lemma invariant_post_download req_body now ctor st :
  invariant st -> invariant (fst (post_download req_body now ctor st)).
Proof.
  intros Hinv.
  destruct (truthy (prop req_body "url") && truthy (prop req_body "outDir")) eqn:Hv.
  2:{ by rewrite post_download_rejected. }
  apply andb_true_iff in Hv as [Hu Ho].
  destruct ctor as [|msg].
  2:{ unfold post_download. by rewrite Hu, Ho. }
  rewrite post_download_started by done. simpl.
  destruct Hinv as [Hlive Hab]. split.
  - intros id s Hget; simpl in *.
    destruct (decide (toString now = id)) as [<-|Hne].
    + rewrite Map_get_set_eq in Hget. injection Hget as <-.
      eexists. split_and!; [by rewrite lookup_app_r, Nat.sub_diag|done|done].
    + rewrite Map_get_set_ne in Hget by done.
      destruct (Hlive id s Hget) as (y & Hy & Hyid & Hyt).
      exists y. split_and!; [|done|done]. by apply lookup_app_l_Some.
  - intros s x Hx Hax; simpl in *.
    apply lookup_app_Some in Hx as [Hx|[_ Hx]]; [eauto|].
    apply list_lookup_singleton_Some in Hx as [_ <-]. done.
Qed.

Lemma invariant_post_cancel id st :
  invariant st -> invariant (fst (post_cancel id st)).
Proof.
  intros Hinv. destruct (Map_get id (activeDownloads st)) as [s|] eqn:Hget.
  - rewrite (post_cancel_found _ _ _ Hget). simpl.
    destruct (proj1 Hinv id s Hget) as (x & Hx & <- & Hxt).
    apply (invariant_remove st set_aborted s x); [done|done|done|].
    intros _. apply elem_of_app. right. by apply list_elem_of_singleton.
  - by rewrite post_cancel_missing.
Qed.

Lemma invariant_settle_fulfilled s st :
  invariant st -> invariant (settle_fulfilled s st).
Proof.
  intros Hinv. destruct (sessions st !! s) as [x|] eqn:Hs.
  2:{ rewrite settle_fulfilled_done; [done|]. intros x Hx. congruence. }
  destruct (settled x) eqn:Hx.
  { rewrite settle_fulfilled_done; [done|]. intros y Hy. congruence. }
  rewrite (settle_fulfilled_pending _ _ _ Hs Hx).
  apply (invariant_remove st set_settled s x); [done|done|done|].
  simpl. intros Ha. apply elem_of_app. left. by eapply (proj2 Hinv).
Qed.

Lemma invariant_settle_rejected s error st :
  invariant st -> invariant (settle_rejected s error st).
Proof.
  intros Hinv. destruct (sessions st !! s) as [x|] eqn:Hs.
  2:{ rewrite settle_rejected_done; [done|]. intros x Hx. congruence. }
  destruct (settled x) eqn:Hx.
  { rewrite settle_rejected_done; [done|]. intros y Hy. congruence. }
  rewrite (settle_rejected_pending _ _ _ _ Hs Hx).
  destruct (aborted x) eqn:Ha.
  - rewrite <- (app_nil_r (published st)).
    apply (invariant_remove st set_settled s x); [done|done|done|].
    intros _. rewrite app_nil_r. by eapply (proj2 Hinv).
  - apply (invariant_remove st set_settled s x); [done|done|done|].
    simpl. congruence.
Qed.

Lemma invariant_step st i : invariant st -> invariant (step util_inspect st i).
Proof.
  intros Hinv. destruct i; simpl.
  - by apply invariant_post_download.
  - by apply invariant_post_cancel.
  - done.
  - by apply invariant_settle_fulfilled.
  - by apply invariant_settle_rejected.
  - destruct entry as [e|]; simpl; [|done].
    destruct (broadcast_registry
                (EvLog h (level e) (originator e)
                   (serialize_part util_inspect h <$> message e)) st)
      as (Ha & Hs & Hp).
    eapply invariant_frame; [exact Ha|exact Hs| |done].
    intros ev Hev. rewrite Hp. apply elem_of_app. by left.
  - by eapply invariant_frame.
  - by eapply invariant_frame.
Qed.

Lemma invariant_run inputs st : invariant st -> invariant (run util_inspect inputs st).
Proof.
  revert st. induction inputs as [|i inputs IH]; intros st Hinv; simpl; [done|].
  apply IH. by apply invariant_step.
Qed.

Lemma invariant_reachable inputs : invariant (run util_inspect inputs initial).
Proof. apply invariant_run, invariant_initial. Qed.
End Invariant.

(** ** Identifiers *)

(** C1. Two valid creation requests handled at the same clock reading are
    both answered 200 with the same identifier; the second overwrites the
    first in [activeDownloads], so one identifier is listed for two
    running sessions, and cancelling it aborts the second session only. *)
Lemma create_same_millisecond_same_id :
  let r1 := post_download sample_request 1700000000000 Constructed initial in
  let r2 := post_download sample_request 1700000000000 Constructed (fst r1) in
  status (snd r1) = 200%nat /\ status (snd r2) = 200%nat /\
  prop (body (snd r1)) "downloadId" = Some (JString "1700000000000") /\
  prop (body (snd r2)) "downloadId" = Some (JString "1700000000000") /\
  length (sessions (fst r2)) = 2%nat /\
  list_ids (fst r2) = ["1700000000000"] /\
  Map_get "1700000000000" (activeDownloads (fst r2)) = Some 1%nat /\
  (aborted <$> sessions (fst (post_cancel "1700000000000" (fst r2))) !! 0%nat) = Some false /\
  list_ids (fst (post_cancel "1700000000000" (fst r2))) = [].
Proof. vm_compute. repeat split. Qed.


(** Two clock readings that differ give identifiers that differ. *)
Lemma toString_inj a b : toString a = toString b -> a = b.
Proof.
  unfold toString. intros H.
  assert (Hn : forall z, NilZero.int_of_string (NilZero.string_of_int (Z.to_int z)) = Some (Z.to_int z)).
  { intros z. apply NilZero.isi.
    - destruct z; simpl; try discriminate.
      intros [=E]. by apply (DecimalPos.Unsigned.to_uint_nonnil p).
    - destruct z; simpl; try discriminate.
      intros [=E]. by apply (DecimalPos.Unsigned.to_uint_nonnil p). }
  pose proof (Hn a) as Ha. rewrite H, Hn in Ha. injection Ha as Ha.
  rewrite <- (DecimalZ.of_to a), <- (DecimalZ.of_to b). by rewrite Ha.
Qed.

(** X1. Creation requests handled at different clock readings are
    answered with different identifiers. *)
Theorem create_distinct_milliseconds_distinct_ids
    (body1 body2 : Json) (now1 now2 : Z) (st1 st2 : Server) :
  truthy (prop body1 "url") = true -> truthy (prop body1 "outDir") = true ->
  truthy (prop body2 "url") = true -> truthy (prop body2 "outDir") = true ->
  now1 <> now2 ->
  exists id1 id2,
    prop (body (snd (post_download body1 now1 Constructed st1))) "downloadId"
      = Some (JString id1) /\
    prop (body (snd (post_download body2 now2 Constructed st2))) "downloadId"
      = Some (JString id2) /\
    id1 <> id2.
Proof.
  intros Hu1 Ho1 Hu2 Ho2 Hne.
  exists (toString now1), (toString now2).
  rewrite !post_download_started by done.
  split_and!; [done|done|]. intros H. by apply Hne, toString_inj.
Qed.

Lemma create_distinct_milliseconds_distinct_ids_witness :
  exists id1 id2,
    prop (body (snd (post_download sample_request 1700000000000 Constructed initial)))
      "downloadId" = Some (JString id1) /\
    prop (body (snd (post_download sample_request 1700000000001 Constructed initial)))
      "downloadId" = Some (JString id2) /\
    id1 <> id2.
Proof.
  apply (create_distinct_milliseconds_distinct_ids
           sample_request sample_request 1700000000000 1700000000001 initial initial);
    try reflexivity.
  discriminate.
Defined.

(** ** The registry and the life of a session *)

Lemma evolves_refl x : evolves x x.
Proof. by split_and!. Qed.

Lemma evolves_trans x y z : evolves x y -> evolves y z -> evolves x z.
Proof. intros (? & ? & ?) (? & ? & ?). split_and!; [congruence|auto|auto]. Qed.

Lemma evolves_alter (f : Session -> Session) (l : list Session) (i s : nat) x :
  (forall y, evolves y (f y)) ->
  l !! s = Some x -> exists y, alter f i l !! s = Some y /\ evolves x y.
Proof.
  intros Hf Hx. destruct (decide (i = s)) as [->|Hne].
  - rewrite list_lookup_alter_eq, Hx. simpl. eauto.
  - rewrite list_lookup_alter_ne by done. eauto using evolves_refl.
Qed.

Lemma evolves_set_settled y : evolves y (set_settled y).
Proof. by split_and!. Qed.

Lemma evolves_set_aborted y : evolves y (set_aborted y).
Proof. by split_and!. Qed.

Section Registry.
Variable util_inspect : Heap -> Value -> nat -> string.

Lemma session_step st i s x :
  sessions st !! s = Some x ->
  exists y, sessions (step util_inspect st i) !! s = Some y /\ evolves x y.
Proof.
  intros Hx. destruct i; simpl.
  - unfold post_download.
    destruct (negb (truthy (prop req_body "url")) || negb (truthy (prop req_body "outDir")));
      [eauto using evolves_refl|].
    destruct ctor; simpl; [|eauto using evolves_refl].
    exists x. split; [by apply lookup_app_l_Some|apply evolves_refl].
  - destruct (Map_get id (activeDownloads st)) as [s0|] eqn:Hget.
    + rewrite (post_cancel_found _ _ _ Hget). cbn [fst sessions].
      apply evolves_alter; [apply evolves_set_aborted|done].
    + rewrite post_cancel_missing by done. eauto using evolves_refl.
  - eauto using evolves_refl.
  - destruct (sessions st !! s0) as [x0|] eqn:Hs0.
    2:{ rewrite settle_fulfilled_done; [eauto using evolves_refl|]. congruence. }
    destruct (settled x0) eqn:Hx0.
    { rewrite settle_fulfilled_done; [eauto using evolves_refl|]. congruence. }
    rewrite (settle_fulfilled_pending _ _ _ Hs0 Hx0). cbn [sessions].
    apply evolves_alter; [apply evolves_set_settled|done].
  - destruct (sessions st !! s0) as [x0|] eqn:Hs0.
    2:{ rewrite settle_rejected_done; [eauto using evolves_refl|]. congruence. }
    destruct (settled x0) eqn:Hx0.
    { rewrite settle_rejected_done; [eauto using evolves_refl|]. congruence. }
    rewrite (settle_rejected_pending _ _ _ _ Hs0 Hx0).
    destruct (aborted x0); cbn [sessions];
      (apply evolves_alter; [apply evolves_set_settled|done]).
  - destruct entry as [e|]; simpl; [|eauto using evolves_refl].
    destruct (broadcast_registry
                (EvLog h (level e) (originator e)
                   (serialize_part util_inspect h <$> message e)) st)
      as (_ & -> & _).
    eauto using evolves_refl.
  - eauto using evolves_refl.
  - eauto using evolves_refl.
Qed.

Lemma session_run inputs st s x :
  sessions st !! s = Some x ->
  exists y, sessions (run util_inspect inputs st) !! s = Some y /\ evolves x y.
Proof.
  revert st x. induction inputs as [|i inputs IH]; intros st x Hx; simpl.
  - eauto using evolves_refl.
  - destruct (session_step st i s x Hx) as (y & Hy & Hxy).
    destruct (IH _ _ Hy) as (z & Hz & Hyz).
    eauto using evolves_trans.
Qed.

Lemma cancelled_step st i :
  invariant st -> cancelled_aborted st -> cancelled_aborted (step util_inspect st i).
Proof.
  intros [Hlive _] Hc id Hin.
  assert (Hold : EvCancelled id ∈ published st ->
            exists s y, sessions (step util_inspect st i) !! s = Some y /\
                        downloadId y = id /\ aborted y = true).
  { intros Hp. destruct (Hc id Hp) as (s & x & Hx & Hid & Ha).
    destruct (session_step st i s x Hx) as (y & Hy & Hyid & Hya & _).
    exists s, y. split_and!; [done|congruence|auto]. }
  destruct i; cbn [step] in Hin |- *.
  - apply Hold. unfold post_download in Hin.
    destruct (negb (truthy (prop req_body "url")) || negb (truthy (prop req_body "outDir")));
      [done|].
    by destruct ctor.
  - destruct (Map_get id0 (activeDownloads st)) as [s|] eqn:Hget.
    + rewrite (post_cancel_found _ _ _ Hget) in Hin |- *. cbn [fst published sessions] in *.
      apply elem_of_app in Hin as [Hin|Hin].
      * destruct (Hc id Hin) as (s' & x & Hx & Hid & Ha).
        destruct (evolves_alter set_aborted (sessions st) s s' x evolves_set_aborted Hx)
          as (y & Hy & Hyid & Hya & _).
        exists s', y. split_and!; [done|congruence|auto].
      * apply list_elem_of_singleton in Hin. injection Hin as ->.
        destruct (Hlive _ _ Hget) as (x & Hx & Hid & _).
        exists s, (set_aborted x). split_and!; [|done|done].
        by rewrite list_lookup_alter_eq, Hx.
    + rewrite post_cancel_missing in Hin by done. apply Hold, Hin.
  - apply Hold, Hin.
  - apply Hold. destruct (sessions st !! s) as [x|] eqn:Hs.
    2:{ rewrite settle_fulfilled_done in Hin; [done|]. congruence. }
    destruct (settled x) eqn:Hx.
    { rewrite settle_fulfilled_done in Hin; [done|]. congruence. }
    rewrite (settle_fulfilled_pending _ _ _ Hs Hx) in Hin. cbn [published] in Hin.
    apply elem_of_app in Hin as [Hin|Hin]; [done|].
    by apply list_elem_of_singleton in Hin.
  - apply Hold. destruct (sessions st !! s) as [x|] eqn:Hs.
    2:{ rewrite settle_rejected_done in Hin; [done|]. congruence. }
    destruct (settled x) eqn:Hx.
    { rewrite settle_rejected_done in Hin; [done|]. congruence. }
    rewrite (settle_rejected_pending _ _ _ _ Hs Hx) in Hin.
    destruct (aborted x); cbn [published] in Hin; [done|].
    apply elem_of_app in Hin as [Hin|Hin]; [done|].
    by apply list_elem_of_singleton in Hin.
  - apply Hold. destruct entry as [e|]; cbn [WebLogger_log fst] in Hin; [|done].
    destruct (broadcast_registry
                (EvLog h (level e) (originator e)
                   (serialize_part util_inspect h <$> message e)) st)
      as (_ & _ & Hp).
    rewrite Hp in Hin. apply elem_of_app in Hin as [Hin|Hin]; [done|].
    by apply list_elem_of_singleton in Hin.
  - apply Hold, Hin.
  - apply Hold, Hin.
Qed.

Lemma cancelled_reachable inputs :
  cancelled_aborted (run util_inspect inputs initial).
Proof.
  assert (H : forall st, invariant st -> cancelled_aborted st ->
            cancelled_aborted (run util_inspect inputs st)).
  { induction inputs as [|i inputs IH]; intros st Hinv Hc; simpl; [done|].
    apply IH; [by apply invariant_step|by apply cancelled_step]. }
  apply H; [apply invariant_initial|].
  intros id Hin. by apply elem_of_nil in Hin.
Qed.

(** C2. Whatever the server has been through, every identifier that
    [GET /api/downloads] lists is registered to the session created under
    it, and that session has reached no terminal outcome: it was not
    cancelled and its download has not settled. A session that has
    reached one is not the entry under its identifier. The step in which
    a download completes or fails, and the step in which a cancellation
    is accepted, leave the identifier out of the list and the session
    terminal: removal and transition are one step. Where no identifier
    was given out twice, the identifier of a session that has reached a
    terminal outcome is not listed at all. *)
Theorem registry_only_live_sessions (inputs : list Input) :
  let st := run util_inspect inputs initial in
  (forall id, id ∈ list_ids st ->
     exists s x, Map_get id (activeDownloads st) = Some s /\
                 sessions st !! s = Some x /\ downloadId x = id /\
                 terminal x = false) /\
  (forall s x, sessions st !! s = Some x -> terminal x = true ->
     Map_get (downloadId x) (activeDownloads st) <> Some s) /\
  (forall s x, sessions st !! s = Some x -> settled x = false ->
     (downloadId x ∉ list_ids (settle_fulfilled s st)) /\
     (terminal <$> sessions (settle_fulfilled s st) !! s) = Some true /\
     forall error,
       (downloadId x ∉ list_ids (settle_rejected s error st)) /\
       (terminal <$> sessions (settle_rejected s error st) !! s) = Some true) /\
  (forall id s, Map_get id (activeDownloads st) = Some s ->
     (id ∉ list_ids (fst (post_cancel id st))) /\
     (terminal <$> sessions (fst (post_cancel id st)) !! s) = Some true) /\
  (unique_ids st ->
     forall s x, sessions st !! s = Some x -> terminal x = true ->
       downloadId x ∉ list_ids st).
Proof.
  intros st. pose proof (invariant_reachable util_inspect inputs) as [Hlive Hab].
  fold st in Hlive, Hab. split_and!.
  - intros id [s Hs]%Map_keys_get.
    destruct (Hlive id s Hs) as (x & ? & ? & ?). eauto 10.
  - intros s x Hx Ht Hget.
    destruct (Hlive _ _ Hget) as (y & Hy & _ & Hyt). congruence.
  - intros s x Hx Hsx.
    split_and!.
    + rewrite (settle_fulfilled_pending _ _ _ Hx Hsx). apply Map_keys_delete.
    + rewrite (settle_fulfilled_pending _ _ _ Hx Hsx). cbn [sessions].
      rewrite list_lookup_alter_eq, Hx. simpl. by rewrite terminal_set_settled.
    + intros error. rewrite (settle_rejected_pending _ _ _ _ Hx Hsx).
      destruct (aborted x); cbn [sessions];
        (split; [apply Map_keys_delete|
                 rewrite list_lookup_alter_eq, Hx; simpl;
                 by rewrite terminal_set_settled]).
  - intros id s Hget. rewrite (post_cancel_found _ _ _ Hget). cbn [fst sessions]. split.
    + apply Map_keys_delete.
    + destruct (Hlive _ _ Hget) as (x & Hx & _ & _).
      by rewrite list_lookup_alter_eq, Hx.
  - intros Huniq s x Hx Ht [s' Hs']%Map_keys_get.
    destruct (Hlive _ _ Hs') as (y & Hy & Hyid & Hyt).
    assert (s' = s) as -> by (by eapply Huniq).
    congruence.
Qed.

(** C3. In every reachable state: cancelling an identifier that is not
    registered answers 404 and changes nothing (no event, no frame).
    Cancelling a registered one answers 200, aborts the controller of
    the session found, removes the identifier, and publishes exactly one
    event, [cancelled] for that identifier, which every open client is
    sent; cancelling the same identifier again answers 404 and changes
    nothing. *)
Theorem cancel_then_cancel_again (inputs : list Input) (id : string) :
  let st := run util_inspect inputs initial in
  (Map_get id (activeDownloads st) = None ->
     post_cancel id st = (st, json 404 [("error", JString "Download not found")])) /\
  (forall s, Map_get id (activeDownloads st) = Some s ->
     let st' := fst (post_cancel id st) in
     snd (post_cancel id st) =
       json 200 [("success", JBool true); ("message", JString "Download cancelled")] /\
     (aborted <$> sessions st' !! s) = Some true /\
     Map_get id (activeDownloads st') = None /\
     (id ∉ list_ids st') /\
     published st' = published st ++ [EvCancelled id] /\
     (exists text, JSON_stringify (EvCancelled id) = Normal text /\
                   clients st' = deliver text <$> clients st) /\
     post_cancel id st' = (st', json 404 [("error", JString "Download not found")])).
Proof.
  intros st. split; [apply post_cancel_missing|].
  intros s Hget st'. subst st'.
  pose proof (invariant_reachable util_inspect inputs) as [Hlive _]. fold st in Hlive.
  destruct (Hlive _ _ Hget) as (x & Hx & _ & _).
  rewrite (post_cancel_found _ _ _ Hget).
  cbn [fst snd sessions activeDownloads published clients]. split_and!.
  - done.
  - by rewrite list_lookup_alter_eq, Hx.
  - apply Map_get_delete_eq.
  - apply Map_keys_delete.
  - done.
  - eexists. split; [reflexivity|]. done.
  - apply post_cancel_missing. apply Map_get_delete_eq.
Qed.
(** C4. Once a cancellation was accepted for an identifier, a later
    failure of the session it was registered to publishes nothing and
    sends nothing, whatever happened in between: the [cancelled] event of
    the cancel path stays the only terminal report. A failure of a
    pending session for whose identifier no [cancelled] event was
    published publishes one [error] event with the message of the
    failure. Where no identifier was given out twice, a failure is
    silent as soon as a [cancelled] event was published for the
    identifier of its session. *)
Theorem failure_after_cancel_is_suppressed
    (before later : list Input) (id : string) (error : Reason) :
  let st := run util_inspect before initial in
  (forall s, Map_get id (activeDownloads st) = Some s ->
     let st1 := fst (post_cancel id st) in
     let st2 := run util_inspect later st1 in
     published st1 = published st ++ [EvCancelled id] /\
     published (settle_rejected s error st2) = published st2 /\
     clients (settle_rejected s error st2) = clients st2) /\
  (forall s x, sessions st !! s = Some x -> settled x = false ->
     EvCancelled (downloadId x) ∉ published st ->
     let failed := EvError (downloadId x) (rejection_message error) in
     published (settle_rejected s error st) = published st ++ [failed] /\
     exists text, JSON_stringify failed = Normal text /\
                  clients (settle_rejected s error st) = deliver text <$> clients st) /\
  (unique_ids st ->
     forall s x, sessions st !! s = Some x ->
       EvCancelled (downloadId x) ∈ published st ->
       published (settle_rejected s error st) = published st /\
       clients (settle_rejected s error st) = clients st).
Proof.
  intros st. pose proof (invariant_reachable util_inspect before) as [Hlive Hab].
  pose proof (cancelled_reachable before) as Hcan.
  fold st in Hlive, Hab, Hcan. split; [|split].
  - intros s Hget st1 st2.
    destruct (Hlive _ _ Hget) as (x & Hx & _ & _).
    assert (Hx1 : sessions st1 !! s = Some (set_aborted x)).
    { subst st1. rewrite (post_cancel_found _ _ _ Hget). cbn [fst sessions].
      by rewrite list_lookup_alter_eq, Hx. }
    split.
    { subst st1. by rewrite (post_cancel_found _ _ _ Hget). }
    destruct (session_run later st1 s _ Hx1) as (y & Hy & _ & Hya & _).
    fold st2 in Hy. specialize (Hya eq_refl).
    destruct (settled y) eqn:Hys.
    + rewrite settle_rejected_done; [done|]. congruence.
    + rewrite (settle_rejected_pending _ _ _ _ Hy Hys), Hya. done.
  - intros s x Hx Hxs Hnot failed.
    assert (Hxa : aborted x = false).
    { destruct (aborted x) eqn:E; [|done]. destruct Hnot. by eapply Hab. }
    rewrite (settle_rejected_pending _ _ _ _ Hx Hxs), Hxa.
    cbn [published clients]. split; [done|].
    eexists. split; [reflexivity|done].
  - intros Huniq s x Hx Hin.
    destruct (Hcan _ Hin) as (s' & x' & Hx' & Hid & Ha).
    assert (s' = s) as -> by (by eapply Huniq).
    assert (x' = x) as -> by congruence.
    destruct (settled x) eqn:Hxs.
    + rewrite settle_rejected_done; [done|]. congruence.
    + by rewrite (settle_rejected_pending _ _ _ _ Hx Hxs), Ha.
Qed.

End Registry.

Lemma registry_only_live_sessions_witness :
  let inputs := [Connection;
                 PostDownload sample_request 1700000000000 Constructed;
                 PostDownload sample_request 1700000000001 Constructed;
                 StartFulfilled 0] in
  let st := run inspect_sample inputs initial in
  list_ids st = ["1700000000001"] /\
  (exists s x, Map_get "1700000000001" (activeDownloads st) = Some s /\
               sessions st !! s = Some x /\ downloadId x = "1700000000001" /\
               terminal x = false) /\
  ("1700000000001" ∉ list_ids (settle_rejected 1 ReasonOther st)) /\
  ("1700000000001" ∉ list_ids (fst (post_cancel "1700000000001" st))) /\
  ("1700000000000" ∉ list_ids st).
Proof.
  intros inputs st.
  destruct (registry_only_live_sessions inspect_sample inputs)
    as (Hlisted & _ & Hsettle & Hcancel & Hunique).
  split; [reflexivity|].
  split; [apply Hlisted; vm_compute; by left|].
  split; [|split].
  - destruct (Hsettle 1 _ eq_refl eq_refl) as (_ & _ & Hrej).
    apply (Hrej ReasonOther).
  - apply (Hcancel "1700000000001" 1 eq_refl).
  - refine (Hunique _ 0 _ eq_refl eq_refl).
    intros s1 s2 x1 x2 H1 H2 Hid.
    destruct s1 as [|[|s1]], s2 as [|[|s2]]; try reflexivity; try discriminate H1;
      try discriminate H2; injection H1 as <-; injection H2 as <-; discriminate Hid.
Defined.

Lemma cancel_then_cancel_again_witness :
  let inputs := [Connection; PostDownload sample_request 1700000000000 Constructed] in
  let st := run inspect_sample inputs initial in
  let st' := fst (post_cancel "1700000000000" st) in
  status (snd (post_cancel "1700000000000" st)) = 200 /\
  published st' = [EvCancelled "1700000000000"] /\
  (aborted <$> sessions st' !! 0) = Some true /\
  status (snd (post_cancel "1700000000000" st')) = 404 /\
  published (fst (post_cancel "1700000000000" st')) = [EvCancelled "1700000000000"].
Proof.
  intros inputs st st'.
  destruct (cancel_then_cancel_again inspect_sample inputs "1700000000000") as [_ Hfound].
  destruct (Hfound 0 eq_refl) as (Hok & Hab & _ & _ & Hpub & _ & Hagain).
  fold st st' in Hok, Hab, Hpub, Hagain.
  split; [by rewrite Hok|].
  split; [exact Hpub|].
  split; [exact Hab|].
  rewrite Hagain. split; [reflexivity|exact Hpub].
Defined.

Lemma failure_after_cancel_is_suppressed_witness :
  let before := [Connection; PostDownload sample_request 1700000000000 Constructed] in
  let st := run inspect_sample before initial in
  published (settle_rejected 0 (ReasonError "socket hang up")
               (fst (post_cancel "1700000000000" st)))
    = [EvCancelled "1700000000000"] /\
  published (settle_rejected 0 (ReasonError "socket hang up") st)
    = [EvError "1700000000000" "socket hang up"].
Proof.
  intros before st.
  destruct (failure_after_cancel_is_suppressed inspect_sample before []
              "1700000000000" (ReasonError "socket hang up")) as (Hcancel & Hfail & _).
  destruct (Hcancel 0 eq_refl) as (Hc & Hs & _).
  destruct (Hfail 0 _ eq_refl eq_refl) as (Hf & _).
  { vm_compute. intros H. by apply elem_of_nil in H. }
  split.
  - etrans; [exact Hs|]. etrans; [exact Hc|]. reflexivity.
  - etrans; [exact Hf|]. reflexivity.
Defined.

(** ** The path validator *)








(** ** The log adapter and the event bus *)

Section LogAdapter.
Variable util_inspect : Heap -> Value -> nat -> string.

Lemma serialize_part_Error h l name msg stack cause props :
  h !! l = Some (OError name msg stack cause props) ->
  serialize_part util_inspect h (VRef l) = PErrorRecord name msg stack cause.
Proof.
  intros Hl. unfold serialize_part, instanceof_Error, error_record, heap_get.
  by rewrite Hl.
Qed.

Lemma serialize_part_object h m :
  instanceof_Error h m = false -> typeof h m = "object" -> m <> VNull ->
  serialize_part util_inspect h m = PText (util_inspect h m 3).
Proof.
  intros He Ht Hn. unfold serialize_part. rewrite He, Ht. by destruct m.
Qed.

Lemma serialize_part_primitive h m :
  is_primitive m = true -> serialize_part util_inspect h m = PValue m.
Proof. intros Hp. by destruct m. Qed.

Lemma serialize_part_function h m :
  typeof h m = "function" -> serialize_part util_inspect h m = PValue m.
Proof.
  intros Ht. unfold serialize_part. rewrite Ht.
  destruct m; try done. simpl in *. by destruct (heap_get h l).
Qed.

(** C7, as the adapter has it. A log entry is published as one [log]
    event with one payload part per message part, in order. A part that
    is an [Error] becomes the record of its [name], [message], [stack]
    and [cause], each as the error has it. Any other part whose [typeof]
    is ["object"] and that is not [null] becomes the text [util.inspect]
    gives for it at depth 3. Every other part is passed on unchanged:
    the primitive values, and functions too. *)
Theorem log_payload_parts (h : Heap) (e : LogEntry) (st : Server) :
  let payload := serialize_part util_inspect h <$> message e in
  published (fst (WebLogger_log util_inspect h (Some e) st))
    = published st ++ [EvLog h (level e) (originator e) payload] /\
  length payload = length (message e) /\
  forall i m, message e !! i = Some m ->
    exists p, payload !! i = Some p /\
      (forall l name msg stack cause props,
         m = VRef l -> h !! l = Some (OError name msg stack cause props) ->
         p = PErrorRecord name msg stack cause) /\
      (instanceof_Error h m = false -> typeof h m = "object" -> m <> VNull ->
         p = PText (util_inspect h m 3)) /\
      (is_primitive m = true -> p = PValue m) /\
      (typeof h m = "function" -> p = PValue m).
Proof.
  intros payload. split_and!.
  - simpl. apply broadcast_registry.
  - apply length_fmap.
  - intros i m Hm. exists (serialize_part util_inspect h m).
    split; [subst payload; by rewrite list_lookup_fmap, Hm|].
    split_and!.
    + intros ? ? ? ? ? ? -> ?. by eapply serialize_part_Error.
    + apply serialize_part_object.
    + apply serialize_part_primitive.
    + apply serialize_part_function.
Qed.



End LogAdapter.

(** C7 as stated fails: a function is not a primitive value and not an
    error, and it is passed on as it is, not rendered as text. *)
Lemma function_part_is_not_rendered :
  ~ (forall (inspect : Heap -> Value -> nat -> string) (h : Heap) (m : Value),
       is_primitive m = false -> instanceof_Error h m = false ->
       exists text, serialize_part inspect h m = PText text).
Proof.
  intros H. destruct (H inspect_sample sample_heap (VRef 1) eq_refl eq_refl) as [t Ht].
  vm_compute in Ht. discriminate.
Qed.

Lemma log_payload_parts_witness :
  let e := {| level := "error"; originator := Some "Fetcher";
              message := [VString "failed:"; VRef 2; VRef 0; VNumber (Int 3); VRef 1] |} in
  exists p1 p2,
    (serialize_part inspect_sample sample_heap <$> message e) !! 1 = Some p1 /\
    p1 = PErrorRecord "RangeError" "page out of range"
           (Some "RangeError: page out of range\n  at f") VUndefined /\
    (serialize_part inspect_sample sample_heap <$> message e) !! 2 = Some p2 /\
    p2 = PText "<ref *0> depth 3".
Proof.
  intros e.
  destruct (log_payload_parts inspect_sample sample_heap e initial) as (_ & _ & H).
  destruct (H 1 (VRef 2) eq_refl) as (p1 & Hp1 & Herr & _).
  destruct (H 2 (VRef 0) eq_refl) as (p2 & Hp2 & _ & Hobj & _).
  exists p1, p2. split; [exact Hp1|]. split; [by eapply Herr|].
  split; [exact Hp2|]. by apply Hobj.
Defined.



Section Bus.
Variable util_inspect : Heap -> Value -> nat -> string.

(** C9. A [broadcast] keeps the clients it found. A client that is not
    open is left exactly as it was: nothing is sent to it. An open
    client is sent the text of the event, unless serializing the event
    throws, and only an open client sets that off: the call throws
    exactly when it would with the clients that are not open taken
    away, never when no client is open, and never for a terminal event.
    In particular a client that closes is skipped by the very next
    [broadcast]. *)
Theorem broadcast_reaches_open_clients_only (data : Event) (st : Server) :
  let st' := fst (broadcast data st) in
  let threw := snd (broadcast data st) in
  length (clients st') = length (clients st) /\
  (forall i c, clients st !! i = Some c -> readyState c <> OPEN ->
     clients st' !! i = Some c) /\
  (forall i c, clients st !! i = Some c -> readyState c = OPEN ->
     (threw = true /\ clients st' !! i = Some c) \/
     (threw = false /\ exists text, JSON_stringify data = Normal text /\
                                    clients st' !! i = Some (send text c))) /\
  threw = snd (broadcast data (with_clients (List.filter is_open (clients st)) st)) /\
  ((forall c, c ∈ clients st -> readyState c <> OPEN) -> threw = false) /\
  (is_log data = false -> threw = false) /\
  (forall i rs c, rs <> OPEN ->
     let closed := step util_inspect st (SocketState i rs) in
     clients closed !! i = Some c ->
     clients (fst (broadcast data closed)) !! i = Some c /\
     snd (broadcast data closed)
       = snd (broadcast data (with_clients (List.filter is_open (clients closed)) closed))).
Proof.
  intros st' threw.
  assert (Hclosed : forall (st0 : Server) i c, clients st0 !! i = Some c ->
            readyState c <> OPEN -> clients (fst (broadcast data st0)) !! i = Some c).
  { intros st0 i c Hc Hr. unfold broadcast.
    destruct (forEach_client_cases data (clients st0)) as [(text & _ & ->)|[_ ->]];
      cbn [fst clients]; [|done].
    rewrite list_lookup_fmap, Hc. simpl. f_equal.
    apply deliver_closed. by apply is_open_false. }
  assert (Hfilter : forall st0 : Server,
            snd (broadcast data st0)
            = snd (broadcast data (with_clients (List.filter is_open (clients st0)) st0))).
  { intros st0. unfold broadcast, with_clients; cbn [clients].
    pose proof (forEach_client_filter data (clients st0)) as Hf.
    destruct (forEach_client data (clients st0)),
             (forEach_client data (List.filter is_open (clients st0))).
    simpl in *. congruence. }
  subst st' threw. split_and!.
  - unfold broadcast.
    destruct (forEach_client_cases data (clients st)) as [(text & _ & ->)|[_ ->]];
      cbn [fst clients]; [by rewrite length_fmap|done].
  - apply Hclosed.
  - intros i c Hc Hr. unfold broadcast.
    destruct (forEach_client_cases data (clients st)) as [(text & Ht & ->)|[_ ->]];
      cbn [fst snd clients].
    + right. split; [done|]. exists text. split; [done|].
      rewrite list_lookup_fmap, Hc. simpl. f_equal.
      apply deliver_open. by apply is_open_spec.
    + left. split; [|done]. apply existsb_exists. exists c.
      split; [apply list_elem_of_In; by eapply list_elem_of_lookup_2|by apply is_open_spec].
  - apply Hfilter.
  - intros Hall. unfold broadcast.
    destruct (forEach_client_cases data (clients st)) as [(text & _ & ->)|[_ ->]];
      cbn [snd]; [done|].
    apply not_true_is_false. intros (c & Hc & Ho)%existsb_exists.
    apply list_elem_of_In in Hc. apply (Hall c Hc). by apply is_open_spec.
  - intros Hd. by rewrite broadcast_terminal_eq.
  - intros i rs c Hrs closed Hc. split; [|apply Hfilter].
    apply Hclosed; [done|].
    subst closed. cbn [step with_clients clients] in Hc.
    rewrite list_lookup_alter_eq in Hc.
    destruct (clients st !! i) as [c0|]; [|done]. simpl in Hc.
    injection Hc as <-. done.
Qed.
End Bus.

Lemma broadcast_reaches_open_clients_only_witness :
  let st := open_and_closed in
  clients (fst (broadcast (EvCancelled "17") st)) !! 1
    = Some {| readyState := 3; frames := [] |} /\
  snd (broadcast (EvCancelled "17") st) = false.
Proof.
  intros st.
  destruct (broadcast_reaches_open_clients_only inspect_sample (EvCancelled "17") st)
    as (_ & Hclosed & _ & _ & _ & Hterm & _).
  split.
  - apply Hclosed; [reflexivity|]. simpl. unfold OPEN. lia.
  - by apply Hterm.
Defined.

(** ** Option defaults *)

Lemma nullish_absent o d : absent o -> nullish o d = d.
Proof. by intros [-> | ->]. Qed.

Lemma opt_chain_absent o k : absent o -> opt_chain o k = None.
Proof. by intros [-> | ->]. Qed.

Section Defaults.

Local Notation "o ?.[ k ]" := (opt_chain o k) (at level 1, left associativity).

(** C10. A creation request with a [url] and an [outDir] registers a
    session whose downloader was given the options of the request, each
    absent one replaced by its default: [overwrite], [seqFilenames],
    [fullFilenames] and [saveHTML] false, [saveJSON] true, the four
    directory-structure flags true, 3 retries, 10 concurrent requests and
    a minimum time of 200 for page and for image requests. With no
    [options] at all, every one of them is the default. *)
Theorem post_download_option_defaults (req_body : Json) (now : Z) (st : Server) :
  truthy (prop req_body "url") = true ->
  truthy (prop req_body "outDir") = true ->
  let o := prop req_body "options" in
  let st' := fst (post_download req_body now Constructed st) in
  exists x,
    sessions st' !! length (sessions st) = Some x /\
    Map_get (toString now) (activeDownloads st') = Some (length (sessions st)) /\
    options x = downloader_options (prop req_body "outDir") o /\
    (absent (o ?.["overwrite"]) -> overwrite (options x) = JBool false) /\
    (absent (o ?.["seqFilenames"]) -> seqFilenames (options x) = JBool false) /\
    (absent (o ?.["fullFilenames"]) -> fullFilenames (options x) = JBool false) /\
    (absent (o ?.["saveJSON"]) -> saveJSON (options x) = JBool true) /\
    (absent (o ?.["saveHTML"]) -> saveHTML (options x) = JBool false) /\
    (absent (o ?.["dirStructure"] ?.["user"]) ->
       user (dirStructure (options x)) = JBool true) /\
    (absent (o ?.["dirStructure"] ?.["favorites"]) ->
       favorites (dirStructure (options x)) = JBool true) /\
    (absent (o ?.["dirStructure"] ?.["folder"]) ->
       folder (dirStructure (options x)) = JBool true) /\
    (absent (o ?.["dirStructure"] ?.["gallery"]) ->
       gallery (dirStructure (options x)) = JBool true) /\
    (absent (o ?.["request"] ?.["maxRetries"]) ->
       maxRetries (request (options x)) = JNumber 3) /\
    (absent (o ?.["request"] ?.["maxConcurrent"]) ->
       maxConcurrent (request (options x)) = JNumber 10) /\
    (absent (o ?.["request"] ?.["minTime"] ?.["page"]) ->
       page (minTime (request (options x))) = JNumber 200) /\
    (absent (o ?.["request"] ?.["minTime"] ?.["image"]) ->
       image (minTime (request (options x))) = JNumber 200) /\
    (absent o ->
       options x =
         {| outDir := prop req_body "outDir";
            overwrite := JBool false; seqFilenames := JBool false;
            fullFilenames := JBool false; saveJSON := JBool true;
            saveHTML := JBool false;
            dirStructure := {| user := JBool true; favorites := JBool true;
                               folder := JBool true; gallery := JBool true |};
            request := {| maxRetries := JNumber 3; maxConcurrent := JNumber 10;
                          minTime := {| page := JNumber 200;
                                        image := JNumber 200 |} |} |}).
Proof.
  intros Hu Ho o st'. subst st'. rewrite post_download_started by done. simpl.
  eexists. split; [by rewrite lookup_app_r, Nat.sub_diag|].
  split; [apply Map_get_set_eq|]. simpl.
  split; [done|].
  repeat (split; [intros Ha; by apply nullish_absent|]).
  intros Ha. unfold downloader_options.
  by rewrite !(opt_chain_absent o) by done.
Qed.

End Defaults.

Lemma post_download_option_defaults_witness :
  exists x,
    sessions (fst (post_download sample_request 1700000000000 Constructed initial)) !! 0
      = Some x /\
    overwrite (options x) = JBool false /\
    saveJSON (options x) = JBool true /\
    gallery (dirStructure (options x)) = JBool true /\
    maxRetries (request (options x)) = JNumber 3 /\
    maxConcurrent (request (options x)) = JNumber 10 /\
    image (minTime (request (options x))) = JNumber 200.
Proof.
  destruct (post_download_option_defaults sample_request 1700000000000 initial
              eq_refl eq_refl)
    as (x & Hx & _ & _ & H1 & _ & _ & H4 & _ & _ & _ & _ & H9 & H10 & H11 & _ & H13 & _).
  exists x. split; [exact Hx|].
  split; [apply H1; by left|].
  split; [apply H4; by left|].
  split; [apply H9; by left|].
  split; [apply H10; by left|].
  split; [apply H11; by left|].
  apply H13; by left.
Defined.

(* ===================================================================== *)
(** * Further properties of the handlers                                 *)
(* ===================================================================== *)

(** ** Creating a download: the three answers *)
(** X2. [POST /api/download] answers 400 exactly when [url] or [outDir]
    is missing or falsy, 500 exactly when both are there and the
    constructor throws, and 200 exactly when both are there and it does
    not. Every answer but 200 leaves the server as it was: nothing is
    registered and nothing is published. The 400 carries the fixed text,
    the 500 the message of the error or the fallback text. *)
Theorem post_download_outcomes (req_body : Json) (now : Z) (ctor : Construction)
    (st : Server) :
  let complete := truthy (prop req_body "url") && truthy (prop req_body "outDir") in
  let r := post_download req_body now ctor st in
  (status (snd r) = 400 <-> complete = false) /\
  (status (snd r) = 500 <-> complete = true /\ ctor <> Constructed) /\
  (status (snd r) = 200 <-> complete = true /\ ctor = Constructed) /\
  (status (snd r) <> 200 -> fst r = st) /\
  (complete = false ->
     snd r = json 400 [("error", JString "URL and output directory are required")]) /\
  (forall msg, complete = true -> ctor = ConstructorThrew msg ->
     snd r = json 500 [("error", JString (default "Failed to start download" msg))]).
Proof.
  intros complete r. subst complete r. unfold post_download.
  destruct (truthy (prop req_body "url")), (truthy (prop req_body "outDir")),
    ctor as [|msg]; simpl; split_and!; try split; intros; destruct_and?;
    simplify_eq; done.
Qed.

Lemma post_download_outcomes_witness :
  status (snd (post_download (JObject [("url", JString "https://example.org/g/1")])
                 1700000000000 Constructed initial)) = 400 /\
  status (snd (post_download sample_request 1700000000000
                 (ConstructorThrew (Some "Invalid URL")) initial)) = 500.
Proof.
  split.
  - apply (post_download_outcomes (JObject [("url", JString "https://example.org/g/1")])
             1700000000000 Constructed initial). reflexivity.
  - apply (post_download_outcomes sample_request 1700000000000
             (ConstructorThrew (Some "Invalid URL")) initial).
    split; [reflexivity|discriminate].
Defined.

(** ** The [Map]: keys and their order *)

Section MapOrder.
Context {V : Type}.
Implicit Types (m : JsMap V) (k : string) (v : V).

Lemma Map_get_None_keys k m : Map_get k m = None <-> k ∉ Map_keys m.
Proof.
  rewrite Map_keys_get. split.
  - intros H [v Hv]. congruence.
  - intros H. destruct (Map_get k m) eqn:E; [|done]. destruct H. eauto.
Qed.

Lemma Map_keys_set k v m :
  Map_keys (Map_set k v m)
  = match Map_get k m with
    | Some _ => Map_keys m
    | None => Map_keys m ++ [k]
    end.
Proof.
  induction m as [|[k' v'] m IH]; [done|]. cbn [Map_set Map_get].
  destruct (String.eqb_spec k' k) as [->|Hne]; [done|].
  change (k' :: Map_keys (Map_set k v m)
          = match Map_get k m with
            | Some _ => k' :: Map_keys m
            | None => (k' :: Map_keys m) ++ [k]
            end).
  rewrite IH. by destruct (Map_get k m).
Qed.

Lemma Map_keys_delete_filter k m :
  Map_keys (Map_delete k m)
  = List.filter (fun k' => negb (String.eqb k' k)) (Map_keys m).
Proof.
  induction m as [|[k' v'] m IH]; [done|].
  change (Map_keys (if negb (String.eqb k' k)
                    then (k', v') :: Map_delete k m else Map_delete k m)
          = if negb (String.eqb k' k)
            then k' :: List.filter (fun k' => negb (String.eqb k' k)) (Map_keys m)
            else List.filter (fun k' => negb (String.eqb k' k)) (Map_keys m)).
  rewrite <- IH. by destruct (String.eqb k' k).
Qed.

Lemma Map_delete_absent k m : Map_get k m = None -> Map_delete k m = m.
Proof.
  unfold Map_delete. induction m as [|[k' v'] m IH]; simpl; [done|].
  destruct (String.eqb k' k); [done|]. intros H. simpl. by rewrite IH.
Qed.

Lemma Map_delete_set_fresh k v m :
  Map_get k m = None -> Map_delete k (Map_set k v m) = m.
Proof.
  unfold Map_delete. induction m as [|[k' v'] m IH]; simpl.
  - by rewrite String.eqb_refl.
  - destruct (String.eqb k' k) eqn:E; [done|]. intros H. simpl.
    rewrite E. simpl. by rewrite IH.
Qed.


End MapOrder.

Lemma run_app (util_inspect : Heap -> Value -> nat -> string) a b st :
  run util_inspect (a ++ b) st = run util_inspect b (run util_inspect a st).
Proof. apply fold_left_app. Qed.



(** ** The registry over time *)

Section Listing.
Variable util_inspect : Heap -> Value -> nat -> string.


(** X4. Creating a download under an identifier that is not registered
  appends it to the list, and cancelling it right away answers 200,
  aborts the new session, publishes [cancelled], and leaves the registry
  exactly as it was before the creation. *)
Theorem create_then_cancel_restores_registry
  (req_body : Json) (now : Z) (st : Server) :
truthy (prop req_body "url") = true -> truthy (prop req_body "outDir") = true ->
toString now ∉ list_ids st ->
let id := toString now in
let st1 := fst (post_download req_body now Constructed st) in
let r := post_cancel id st1 in
list_ids st1 = list_ids st ++ [id] /\
status (snd r) = 200 /\
activeDownloads (fst r) = activeDownloads st /\
(aborted <$> sessions (fst r) !! length (sessions st)) = Some true /\
published (fst r) = published st ++ [EvCancelled id].
Proof.
intros Hu Ho Hfresh id st1 r. subst id st1 r.
apply Map_get_None_keys in Hfresh.
rewrite post_download_started by done. cbn [fst].
split.
{ unfold list_ids. cbn [activeDownloads]. by rewrite Map_keys_set, Hfresh. }
erewrite post_cancel_found; [|cbn [activeDownloads]; apply Map_get_set_eq].
cbn [fst snd activeDownloads sessions published]. split_and!.
- done.
- by apply Map_delete_set_fresh.
- rewrite list_lookup_alter_eq, lookup_app_r, Nat.sub_diag; done.
- done.
Qed.

(** X5. Cancelling a registered download, and the completion or failure
    of a pending one, are local: the list of identifiers loses that one
    identifier and keeps the others in their order, every other
    identifier stays registered to the same session, and no other session
    is changed. *)
Theorem terminal_steps_are_local (st : Server) (s : SessionRef) (x : Session) :
  sessions st !! s = Some x ->
  (Map_get (downloadId x) (activeDownloads st) = Some s ->
     removes_only (downloadId x) s st (fst (post_cancel (downloadId x) st))) /\
  (settled x = false ->
     removes_only (downloadId x) s st (settle_fulfilled s st) /\
     forall error, removes_only (downloadId x) s st (settle_rejected s error st)).
Proof.
  intros Hx.
  assert (Hshape : forall (f : Session -> Session) cs evs,
            removes_only (downloadId x) s st
              {| activeDownloads := Map_delete (downloadId x) (activeDownloads st);
                 sessions := alter f s (sessions st);
                 clients := cs; published := evs |}).
  { intros f cs evs. unfold removes_only, list_ids. cbn [activeDownloads sessions].
    split_and!.
    - apply Map_keys_delete_filter.
    - intros id Hne. by apply Map_get_delete_ne.
    - intros s' Hne. by apply list_lookup_alter_ne.
    - apply length_alter. }
  split.
  - intros Hget. rewrite (post_cancel_found _ _ _ Hget). apply Hshape.
  - intros Hs. split.
    + rewrite (settle_fulfilled_pending _ _ _ Hx Hs). apply Hshape.
    + intros error. rewrite (settle_rejected_pending _ _ _ _ Hx Hs).
      destruct (aborted x); apply Hshape.
Qed.

(** X6. The success path does not look at the cancellation: when the
  download of a cancelled session is fulfilled after all, a [complete]
  event is published for the identifier whose [cancelled] event was
  published before, and every open client is sent it. *)
Theorem completion_after_cancel_is_still_reported
  (before later : list Input) (id : string) (s : SessionRef) :
let st := run util_inspect before initial in
let st1 := fst (post_cancel id st) in
let st2 := run util_inspect later st1 in
Map_get id (activeDownloads st) = Some s ->
(exists y, sessions st2 !! s = Some y /\ settled y = false) ->
EvCancelled id ∈ published st2 /\
published (settle_fulfilled s st2) = published st2 ++ [EvComplete id] /\
exists text, JSON_stringify (EvComplete id) = Normal text /\
             clients (settle_fulfilled s st2) = deliver text <$> clients st2.
Proof.
intros st st1 st2 Hget (y & Hy & Hys).
pose proof (invariant_reachable util_inspect before) as [Hlive _]. fold st in Hlive.
destruct (Hlive _ _ Hget) as (x & Hx & Hid & _).
assert (Hx1 : sessions st1 !! s = Some (set_aborted x)).
{ subst st1. rewrite (post_cancel_found _ _ _ Hget). cbn [fst sessions].
  by rewrite list_lookup_alter_eq, Hx. }
destruct (session_run util_inspect later st1 s _ Hx1) as (y' & Hy' & Hyid & Hya & _).
fold st2 in Hy'. assert (y' = y) as -> by congruence.
simpl in Hyid. rewrite Hid in Hyid.
split.
{ destruct (invariant_reachable util_inspect (before ++ PostCancel id :: later))
    as [_ Hab].
  rewrite run_app in Hab. simpl in Hab. fold st st1 st2 in Hab.
  rewrite <- Hyid. eapply Hab; [done|]. by apply Hya. }
rewrite (settle_fulfilled_pending _ _ _ Hy Hys), Hyid. cbn [published clients].
split; [done|]. eexists. split; [reflexivity|done].
Qed.

(** X7. Nothing that happens to the server forgets or resets a session:
  it keeps its place and its identifier, a session that was aborted
  stays aborted and one whose download has settled stays settled. *)
Theorem sessions_are_never_reset (inputs : list Input) (st : Server)
  (s : SessionRef) (x : Session) :
sessions st !! s = Some x ->
length (sessions st) <= length (sessions (run util_inspect inputs st)) /\
exists y, sessions (run util_inspect inputs st) !! s = Some y /\
          downloadId y = downloadId x /\
          (aborted x = true -> aborted y = true) /\
          (settled x = true -> settled y = true) /\
          (terminal x = true -> terminal y = true).
Proof.
intros Hx. split.
- apply Nat.nlt_ge. intros Hlt.
  set (n := length (sessions (run util_inspect inputs st))) in *.
  assert (Hn : n < length (sessions st)) by lia.
  apply lookup_lt_is_Some in Hn as [z Hz].
  destruct (session_run util_inspect inputs st n z Hz) as (y & Hy & _).
  apply lookup_lt_Some in Hy. subst n. lia.
- destruct (session_run util_inspect inputs st s x Hx) as (y & Hy & Hid & Ha & Hs).
  exists y. split_and!; try done.
  unfold terminal. intros [H|H]%orb_true_iff; apply orb_true_iff; auto.
Qed.

Lemma unique_ids_step st i :
unique_ids (step util_inspect st i) -> unique_ids st.
Proof.
intros Hu s1 s2 x1 x2 H1 H2 Hid.
destruct (session_step util_inspect st i s1 x1 H1) as (y1 & Hy1 & Hid1 & _).
destruct (session_step util_inspect st i s2 x2 H2) as (y2 & Hy2 & Hid2 & _).
eapply Hu; [done|done|congruence].
Qed.

Lemma live_registered_remove (st : Server) (f : Session -> Session) s x cs evs :
invariant st -> live_registered st ->
sessions st !! s = Some x ->
(forall y, downloadId (f y) = downloadId y) ->
terminal (f x) = true ->
let st' := {| activeDownloads := Map_delete (downloadId x) (activeDownloads st);
              sessions := alter f s (sessions st);
              clients := cs; published := evs |} in
unique_ids st' -> live_registered st'.
Proof.
intros Hinv Hreg Hx Hid Hterm st' Hu s' y Hy Hyt. subst st'.
cbn [sessions activeDownloads] in *.
destruct (decide (s = s')) as [<-|Hne].
- rewrite list_lookup_alter_eq, Hx in Hy. simpl in Hy. congruence.
- rewrite list_lookup_alter_ne in Hy by done.
  rewrite Map_get_delete_ne; [by apply Hreg|].
  intros Heq. apply Hne. eapply Hu.
  + cbn [sessions]. by rewrite list_lookup_alter_eq, Hx.
  + cbn [sessions]. by rewrite list_lookup_alter_ne.
  + rewrite Hid. done.
Qed.

Lemma live_registered_step st i :
invariant st -> live_registered st ->
unique_ids (step util_inspect st i) -> live_registered (step util_inspect st i).
Proof.
intros Hinv Hreg Hu.
assert (Hframe : forall st' : Server,
          activeDownloads st' = activeDownloads st -> sessions st' = sessions st ->
          live_registered st').
{ intros st' Ha Hs s x. rewrite Ha, Hs. apply Hreg. }
destruct i; cbn [step] in *.
- destruct (truthy (prop req_body "url") && truthy (prop req_body "outDir")) eqn:Hv.
  2:{ by rewrite post_download_rejected. }
  apply andb_true_iff in Hv as [Hu' Ho]. destruct ctor as [|msg].
  2:{ unfold post_download. by rewrite Hu', Ho. }
  rewrite post_download_started in Hu |- * by done. cbn [fst] in *.
  intros s x Hx Hxt. cbn [sessions activeDownloads] in *.
  apply lookup_app_Some in Hx as [Hx|[Hlen Hx]].
  + rewrite Map_get_set_ne; [by apply Hreg|].
    intros Heq. apply lookup_lt_Some in Hx as Hlt.
    assert (length (sessions st) = s); [|lia].
    eapply Hu; [|by apply lookup_app_l_Some|].
    * cbn [sessions]. by rewrite lookup_app_r, Nat.sub_diag.
    * done.
  + apply list_lookup_singleton_Some in Hx as [Hs <-]. cbn [downloadId].
    rewrite Map_get_set_eq. f_equal. lia.
- destruct (Map_get id (activeDownloads st)) as [s|] eqn:Hget.
  + rewrite (post_cancel_found _ _ _ Hget) in Hu |- *. cbn [fst] in *.
    destruct (proj1 Hinv _ _ Hget) as (x & Hx & <- & _).
    by apply (live_registered_remove st set_aborted s x).
  + by rewrite post_cancel_missing.
- done.
- destruct (sessions st !! s) as [x|] eqn:Hs.
  2:{ rewrite settle_fulfilled_done; [done|]. congruence. }
  destruct (settled x) eqn:Hx.
  { rewrite settle_fulfilled_done; [done|]. congruence. }
  rewrite (settle_fulfilled_pending _ _ _ Hs Hx) in Hu |- *.
  apply (live_registered_remove st set_settled s x); try done.
  apply terminal_set_settled.
- destruct (sessions st !! s) as [x|] eqn:Hs.
  2:{ rewrite settle_rejected_done; [done|]. congruence. }
  destruct (settled x) eqn:Hx.
  { rewrite settle_rejected_done; [done|]. congruence. }
  rewrite (settle_rejected_pending _ _ _ _ Hs Hx) in Hu |- *.
  destruct (aborted x);
    (apply (live_registered_remove st set_settled s x); try done;
     apply terminal_set_settled).
- destruct entry as [e|]; cbn [WebLogger_log fst]; [|done].
  destruct (broadcast_registry
              (EvLog h (level e) (originator e)
                 (serialize_part util_inspect h <$> message e)) st)
    as (Ha & Hs & _).
  by apply Hframe.
- by apply Hframe.
- by apply Hframe.
Qed.

(** X8. Where no identifier was given out twice, the registry holds
  exactly the sessions that have reached no terminal outcome: a session
  is registered under its identifier, and its identifier listed, if and
  only if it was neither cancelled nor settled. *)
Theorem live_sessions_are_registered (inputs : list Input) :
let st := run util_inspect inputs initial in
unique_ids st ->
(forall s x, sessions st !! s = Some x ->
   (terminal x = false <-> Map_get (downloadId x) (activeDownloads st) = Some s)) /\
(forall s x, sessions st !! s = Some x ->
   (terminal x = false <-> downloadId x ∈ list_ids st)).
Proof.
intros st Hu.
assert (Hreg : live_registered st).
{ subst st. induction inputs as [|i inputs IH] using rev_ind.
  - intros s x Hx. done.
  - rewrite run_app in Hu |- *. simpl in *.
    apply live_registered_step; [apply invariant_reachable| |done].
    apply IH. by eapply unique_ids_step. }
pose proof (invariant_reachable util_inspect inputs) as [Hlive _]. fold st in Hlive.
assert (H1 : forall s x, sessions st !! s = Some x ->
          (terminal x = false <-> Map_get (downloadId x) (activeDownloads st) = Some s)).
{ intros s x Hx. split; [by apply Hreg|].
  intros Hget. destruct (Hlive _ _ Hget) as (y & Hy & _ & Hyt). congruence. }
split; [done|].
intros s x Hx. split.
- intros Ht. apply Map_keys_get. exists s. by apply Hreg.
- intros [s' Hs']%Map_keys_get.
  destruct (Hlive _ _ Hs') as (y & Hy & Hyid & Hyt).
  assert (s' = s) as -> by (by eapply Hu). congruence.
Qed.
End Listing.

Lemma create_then_cancel_restores_registry_witness :
  let r := post_cancel "1700000000000"
             (fst (post_download sample_request 1700000000000 Constructed initial)) in
  status (snd r) = 200 /\ activeDownloads (fst r) = [] /\
  published (fst r) = [EvCancelled "1700000000000"].
Proof.
  destruct (create_then_cancel_restores_registry sample_request 1700000000000 initial)
    as (_ & Hs & Ha & _ & Hp); [reflexivity|reflexivity| |].
  { intros H. by apply elem_of_nil in H. }
  split; [exact Hs|]. split; [exact Ha|exact Hp].
Defined.

Lemma terminal_steps_are_local_witness :
  let st := run inspect_sample
              [PostDownload sample_request 1700000000000 Constructed;
               PostDownload sample_request 1700000000001 Constructed] initial in
  list_ids (fst (post_cancel "1700000000000" st)) = ["1700000000001"] /\
  list_ids (settle_fulfilled 0 st) = ["1700000000001"].
Proof.
  intros st.
  destruct (terminal_steps_are_local st 0 _ eq_refl) as [Hcancel Hsettle].
  destruct (Hcancel eq_refl) as (Hc & _).
  destruct (Hsettle eq_refl) as ((Hf & _) & _).
  split; [etrans; [exact Hc|reflexivity]|etrans; [exact Hf|reflexivity]].
Defined.

Lemma completion_after_cancel_is_still_reported_witness :
  let before := [PostDownload sample_request 1700000000000 Constructed] in
  let st2 := fst (post_cancel "1700000000000" (run inspect_sample before initial)) in
  published (settle_fulfilled 0 st2)
    = [EvCancelled "1700000000000"; EvComplete "1700000000000"].
Proof.
  intros before st2.
  destruct (completion_after_cancel_is_still_reported inspect_sample before []
              "1700000000000" 0 eq_refl) as (_ & Hp & _).
  { eexists. split; reflexivity. }
  etrans; [exact Hp|reflexivity].
Defined.

Lemma sessions_are_never_reset_witness :
  let st := fst (post_cancel "1700000000000"
                   (fst (post_download sample_request 1700000000000 Constructed initial))) in
  exists y,
    sessions (run inspect_sample
                [PostDownload sample_request 1700000000000 Constructed;
                 StartRejected 0 ReasonOther] st) !! 0 = Some y /\
    aborted y = true.
Proof.
  intros st.
  destruct (sessions_are_never_reset inspect_sample
              [PostDownload sample_request 1700000000000 Constructed;
               StartRejected 0 ReasonOther] st 0 _ eq_refl)
    as (_ & y & Hy & _ & Ha & _).
  exists y. split; [exact Hy|]. by apply Ha.
Defined.

Lemma live_sessions_are_registered_witness :
  let st := run inspect_sample
              [PostDownload sample_request 1700000000000 Constructed;
               PostDownload sample_request 1700000000001 Constructed;
               PostCancel "1700000000000"] initial in
  Map_get "1700000000001" (activeDownloads st) = Some 1 /\
  ("1700000000000" ∉ list_ids st).
Proof.
  intros st.
  destruct (live_sessions_are_registered inspect_sample
              [PostDownload sample_request 1700000000000 Constructed;
               PostDownload sample_request 1700000000001 Constructed;
               PostCancel "1700000000000"]) as [Hreg Hlist].
  { intros s1 s2 x1 x2 H1 H2 Hid.
    destruct s1 as [|[|s1]], s2 as [|[|s2]]; try reflexivity; try discriminate H1;
      try discriminate H2; injection H1 as <-; injection H2 as <-; discriminate Hid. }
  split.
  - apply (Hreg 1 _ eq_refl). reflexivity.
  - intros Hin. apply (Hlist 0 _ eq_refl) in Hin. discriminate Hin.
Defined.

(** ** What an observer receives *)

Lemma frames_of_app evs1 evs2 : frames_of (evs1 ++ evs2) = frames_of evs1 ++ frames_of evs2.
Proof. unfold frames_of. by rewrite fmap_app, concat_app. Qed.

Lemma frames_of_singleton ev : frames_of [ev] = frame_of ev.
Proof. unfold frames_of. simpl. apply app_nil_r. Qed.

Lemma broadcast_client data st i c :
  clients st !! i = Some c ->
  exists c', clients (fst (broadcast data st)) !! i = Some c' /\
             readyState c' = readyState c /\
             frames c' = frames c ++ (if is_open c then frame_of data else []).
Proof.
  intros Hc. unfold broadcast, frame_of.
  destruct (forEach_client_cases data (clients st)) as [(text & Ht & ->)|[Ht ->]];
    cbn [fst clients]; rewrite Ht.
  - rewrite list_lookup_fmap, Hc. simpl. eexists. split; [done|].
    unfold deliver. destruct (is_open c); simpl; [done|]. by rewrite app_nil_r.
  - exists c. split_and!; [done|done|]. destruct (is_open c); by rewrite app_nil_r.
Qed.

Section Delivery.
Variable util_inspect : Heap -> Value -> nat -> string.

Lemma client_step st a i c :
clients st !! i = Some c ->
exists c' evs,
  clients (step util_inspect st a) !! i = Some c' /\
  published (step util_inspect st a) = published st ++ evs /\
  frames c' = frames c ++ (if is_open c then frames_of evs else []) /\
  (readyState c' = readyState c \/ exists rs, a = SocketState i rs).
Proof.
intros Hc.
assert (Hsame : forall st' : Server,
          clients st' = clients st -> published st' = published st ->
          exists c' evs, clients st' !! i = Some c' /\
            published st' = published st ++ evs /\
            frames c' = frames c ++ (if is_open c then frames_of evs else []) /\
            (readyState c' = readyState c \/ exists rs, a = SocketState i rs)).
{ intros st' Hcs Hp. exists c, []. rewrite Hcs, Hp, !app_nil_r.
  split_and!; [done|done| |by left]. destruct (is_open c); by rewrite app_nil_r. }
assert (Hone : forall data st0 (st' : Server),
          clients st0 = clients st -> published st0 = published st ->
          clients st' = clients (fst (broadcast data st0)) ->
          published st' = published st ++ [data] ->
          exists c' evs, clients st' !! i = Some c' /\
            published st' = published st ++ evs /\
            frames c' = frames c ++ (if is_open c then frames_of evs else []) /\
            (readyState c' = readyState c \/ exists rs, a = SocketState i rs)).
{ intros data st0 st' Hcs Hp Hcs' Hp'.
  destruct (broadcast_client data st0 i c) as (c' & Hc' & Hr & Hf); [by rewrite Hcs|].
  exists c', [data]. rewrite Hcs', frames_of_singleton. split_and!; [done|done|done|by left]. }
destruct a as [req_body now ctor|id| |s|s error|h entry| |j rs]; cbn [step].
- apply Hsame; unfold post_download;
    destruct (negb (truthy (prop req_body "url")) || negb (truthy (prop req_body "outDir")));
    try done; by destruct ctor.
- destruct (Map_get id (activeDownloads st)) as [s|] eqn:Hget.
  + rewrite (post_cancel_found _ _ _ Hget). cbn [fst].
    apply (Hone (EvCancelled id) st); try done.
    by rewrite broadcast_terminal_eq.
  + rewrite post_cancel_missing by done. by apply Hsame.
- by apply Hsame.
- destruct (sessions st !! s) as [x|] eqn:Hs.
  2:{ rewrite settle_fulfilled_done; [by apply Hsame|]. congruence. }
  destruct (settled x) eqn:Hx.
  { rewrite settle_fulfilled_done; [by apply Hsame|]. congruence. }
  rewrite (settle_fulfilled_pending _ _ _ Hs Hx).
  apply (Hone (EvComplete (downloadId x)) st); try done.
  by rewrite broadcast_terminal_eq.
- destruct (sessions st !! s) as [x|] eqn:Hs.
  2:{ rewrite settle_rejected_done; [by apply Hsame|]. congruence. }
  destruct (settled x) eqn:Hx.
  { rewrite settle_rejected_done; [by apply Hsame|]. congruence. }
  rewrite (settle_rejected_pending _ _ _ _ Hs Hx).
  destruct (aborted x); [by apply Hsame|].
  apply (Hone (EvError (downloadId x) (rejection_message error)) st); try done.
  by rewrite broadcast_terminal_eq.
- destruct entry as [e|]; cbn [WebLogger_log fst]; [|by apply Hsame].
  eapply (Hone _ st); try done.
  apply broadcast_registry.
- exists c, []. cbn [with_clients clients published]. rewrite !app_nil_r.
  split_and!; [by apply lookup_app_l_Some|done| |by left].
  destruct (is_open c); by rewrite app_nil_r.
- cbn [with_clients clients published].
  destruct (decide (j = i)) as [->|Hne].
  + exists (set_readyState rs c), []. rewrite list_lookup_alter_eq, Hc, !app_nil_r.
    split_and!; [done|done| |right; eauto].
    simpl. destruct (is_open c); by rewrite app_nil_r.
  + exists c, []. rewrite list_lookup_alter_ne, !app_nil_r by done.
    split_and!; [done|done| |by left]. destruct (is_open c); by rewrite app_nil_r.
Qed.

Lemma open_client_run inputs st i c :
clients st !! i = Some c -> readyState c = OPEN ->
(forall rs, SocketState i rs ∉ inputs) ->
exists c' evs,
  clients (run util_inspect inputs st) !! i = Some c' /\
  readyState c' = OPEN /\
  published (run util_inspect inputs st) = published st ++ evs /\
  frames c' = frames c ++ frames_of evs.
Proof.
revert st c. induction inputs as [|a inputs IH]; intros st c Hc Ho Hno; simpl.
- exists c, []. rewrite !app_nil_r. done.
- destruct (client_step st a i c Hc) as (c1 & evs1 & Hc1 & Hp1 & Hf1 & Hr1).
  assert (Ho1 : readyState c1 = OPEN).
  { destruct Hr1 as [->|[rs ->]]; [done|]. destruct (Hno rs). by left. }
  destruct (IH _ _ Hc1 Ho1) as (c' & evs & Hc' & Ho' & Hp' & Hf').
  { intros rs Hin. apply (Hno rs). by right. }
  exists c', (evs1 ++ evs). split_and!; [done|done| |].
  + by rewrite Hp', Hp1, app_assoc.
  + rewrite Hf', Hf1, frames_of_app, app_assoc.
    by rewrite (proj2 (is_open_spec c) Ho).
Qed.

(** X9. A client that connects and stays open is sent exactly the events
  published from then on that can be serialized, each once and in the
  order of publication; nothing published before it connected reaches
  it. *)
Theorem open_client_receives_what_is_published (before after : list Input) :
let st0 := run util_inspect before initial in
let i := length (clients st0) in
let st := run util_inspect after (step util_inspect st0 Connection) in
(forall rs, SocketState i rs ∉ after) ->
exists c,
  clients st !! i = Some c /\
  readyState c = OPEN /\
  frames c = frames_of (drop (length (published st0)) (published st)).
Proof.
intros st0 i st Hno.
destruct (open_client_run after (step util_inspect st0 Connection) i
            {| readyState := OPEN; frames := [] |})
  as (c & evs & Hc & Ho & Hp & Hf); [|done|done|].
{ simpl. by rewrite lookup_app_r, Nat.sub_diag. }
exists c. split_and!; [done|done|].
fold st in Hp. rewrite Hp. simpl. by rewrite drop_app_length.
Qed.

Lemma frames_of_elem text evs :
text ∈ frames_of evs -> exists data, data ∈ evs /\ JSON_stringify data = Normal text.
Proof.
unfold frames_of. induction evs as [|ev evs IH]; simpl.
- intros H. by apply elem_of_nil in H.
- intros [H|H]%elem_of_app.
  + exists ev. split; [by left|]. unfold frame_of in H.
    destruct (JSON_stringify ev); [|by apply elem_of_nil in H].
    by apply list_elem_of_singleton in H as ->.
  + destruct (IH H) as (data & Hd & Ht). exists data. split; [by right|done].
Qed.

(** X10. The frames handed to a socket are never taken back or
  reordered: whatever happens, its earlier frames stay a prefix of its
  frames, and every frame added is the JSON text of an event published
  in the meantime. *)
Theorem frames_are_only_appended (inputs : list Input) (st : Server) (i : nat)
  (c : Client) :
clients st !! i = Some c ->
exists c' more news,
  clients (run util_inspect inputs st) !! i = Some c' /\
  frames c' = frames c ++ more /\
  published (run util_inspect inputs st) = published st ++ news /\
  forall text, text ∈ more ->
    exists data, data ∈ news /\ JSON_stringify data = Normal text.
Proof.
revert st c. induction inputs as [|a inputs IH]; intros st c Hc; simpl.
- exists c, [], []. rewrite !app_nil_r. split_and!; try done.
  intros text H. by apply elem_of_nil in H.
- destruct (client_step st a i c Hc) as (c1 & evs1 & Hc1 & Hp1 & Hf1 & _).
  destruct (IH _ _ Hc1) as (c' & more & news & Hc' & Hf' & Hp' & Hmore).
  exists c', ((if is_open c then frames_of evs1 else []) ++ more), (evs1 ++ news).
  split_and!; [done| | |].
  + by rewrite Hf', Hf1, app_assoc.
  + by rewrite Hp', Hp1, app_assoc.
  + intros text [H|H]%elem_of_app.
    * destruct (is_open c); [|by apply elem_of_nil in H].
      destruct (frames_of_elem _ _ H) as (data & Hd & Ht).
      exists data. split; [apply elem_of_app; by left|done].
    * destruct (Hmore _ H) as (data & Hd & Ht).
      exists data. split; [apply elem_of_app; by right|done].
Qed.
End Delivery.

Lemma open_client_receives_what_is_published_witness :
  let before := [PostDownload sample_request 1700000000000 Constructed;
                 LoggerLog [] (Some {| level := "info"; originator := None;
                                       message := [VString "early"] |})] in
  let after := [LoggerLog [] (Some {| level := "info"; originator := None;
                                      message := [VBigInt 1] |});
                PostCancel "1700000000000"] in
  let st := run inspect_sample after
              (step inspect_sample (run inspect_sample before initial) Connection) in
  exists c, clients st !! 0 = Some c /\
            frames c = frames_of [EvCancelled "1700000000000"].
Proof.
  intros before after st.
  destruct (open_client_receives_what_is_published inspect_sample before after)
    as (c & Hc & _ & Hf).
  { intros rs Hin. vm_compute in Hin.
    repeat (apply elem_of_cons in Hin as [Hin|Hin]; [discriminate Hin|]).
    by apply elem_of_nil in Hin. }
  exists c. split; [exact Hc|]. etrans; [exact Hf|]. reflexivity.
Defined.

Lemma frames_are_only_appended_witness :
  exists c' more,
    clients (run inspect_sample [SocketState 0 3; PostCancel "17"; SocketState 0 1]
               one_open_client) !! 0 = Some c' /\
    frames c' = [] ++ more.
Proof.
  destruct (frames_are_only_appended inspect_sample
              [SocketState 0 3; PostCancel "17"; SocketState 0 1] one_open_client 0 _
              eq_refl) as (c' & more & news & Hc & Hf & _).
  exists c', more. split; [exact Hc|exact Hf].
Defined.

(** ** The path validator: what the answer means *)

Lemma probe_parent_spec fs path : probe_parent fs path = true <-> existing_directory fs path.
Proof.
  unfold probe_parent, existing_directory.
  destruct (existsSync fs path); [|split; [done|by intros [? _]]].
  destruct (statSync fs path) as [stats|].
  - split; [intros H; eauto|]. by intros (_ & stats' & [= <-] & H).
  - split; [done|]. by intros (_ & stats' & ? & _).
Qed.

(** X11. The validator reports a path valid exactly when it is an
    existing directory that can be written to, or does not exist while
    its parent is an existing directory; and exactly then the message is
    one of the two favourable ones. A valid path is always reported
    writable, a directory is always reported existing, and a path that
    exists but cannot be inspected is reported as existing, not a
    directory, not writable and invalid. *)
Theorem validate_valid_iff (fs : Platform) (dirPath : string) :
  let r := validate fs dirPath in
  (PathInfo.valid r = true <->
     writable_directory fs dirPath \/
     (existsSync fs dirPath = false /\
      existing_directory fs (path_parse_dir fs dirPath))) /\
  (PathInfo.valid r = true <->
     PathInfo.message r = "Directory is valid and writable" \/
     PathInfo.message r = "Directory will be created") /\
  (PathInfo.valid r = true -> PathInfo.writable r = true) /\
  (PathInfo.isDirectory r = true -> PathInfo.exists_ r = true) /\
  (existsSync fs dirPath = true -> statSync fs dirPath = Throw ->
     PathInfo.exists_ r = true /\ PathInfo.isDirectory r = false /\
     PathInfo.writable r = false /\ PathInfo.valid r = false).
Proof.
  intros r. subst r. unfold validate, probe_path, writable_directory.
  pose proof (probe_parent_spec fs (path_parse_dir fs dirPath)) as Hp.
  destruct (existsSync fs dirPath) eqn:Hex; cbn.
  - destruct (statSync fs dirPath) as [stats|] eqn:Hst; cbn.
    + destruct (stats_isDirectory stats) eqn:Hd; cbn.
      * destruct (accessSync_W_OK fs dirPath) as [[]|] eqn:Hw; cbn.
        -- split_and!; try done; [split; [intros _|done]|split; [intros _|done]].
           ++ left. split; [done|]. split; [|done]. by exists stats.
           ++ by left.
        -- split_and!; try done; split; try done.
           ++ intros [(_ & _ & ?)|[? _]]; done.
           ++ intros [?|?]; done.
      * split_and!; try done; split; try done.
        -- intros [(_ & (stats' & [= <-] & ?) & _)|[? _]]; congruence.
        -- destruct (accessSync_W_OK fs dirPath); intros [?|?]; done.
    + split_and!; try done; split; try done.
      * intros [(_ & (stats' & ? & _) & _)|[? _]]; done.
      * intros [?|?]; done.
  - destruct (probe_parent fs (path_parse_dir fs dirPath)) eqn:Hpp; cbn.
    + split_and!; try done; [split; [intros _|done]|split; [intros _|done]].
      * right. split; [done|]. by apply Hp.
      * by right.
    + split_and!; try done; split; try done.
      * intros [(? & _)|[_ H]]; [done|]. apply Hp in H. done.
      * intros [?|?]; done.
Qed.

(** X12. [POST /api/validate-path] answers 200 exactly when [dirPath] is
    a non-empty string, and 400 otherwise: with "Path is required" when
    [dirPath] is missing or falsy, and with [valid: false] and the message
    of the [TypeError] when it is any other value that is not a string. A
    400 never says [valid: true]. *)
Theorem post_validate_path_status (fs : Platform) (req_body : Json) :
  let r := post_validate_path fs req_body in
  (status r = 200 \/ status r = 400) /\
  (status r = 200 <->
     exists path, prop req_body "dirPath" = Some (JString path) /\ path <> "") /\
  (truthy (prop req_body "dirPath") = false ->
     r = json 400 [("error", JString "Path is required")]) /\
  (forall v, prop req_body "dirPath" = Some v -> truthy (Some v) = true ->
     (forall path, v <> JString path) ->
     r = json 400 [("valid", JBool false);
                   ("error", JString (ERR_INVALID_ARG_TYPE fs v))]) /\
  (status r = 400 -> prop (body r) "valid" <> Some (JBool true)).
Proof.
  intros r. subst r. unfold post_validate_path.
  assert (Hno : forall v : Json, (forall path, v <> JString path) ->
            ~ exists path, Some v = Some (JString path) /\ path <> "").
  { intros v Hv (path & [= ->] & _). by destruct (Hv path). }
  destruct (prop req_body "dirPath") as [v|] eqn:Hv.
  2:{ simpl. split_and!; [by right| |done|done|by intros _].
      split; [done|by intros (? & ? & _)]. }
  assert (Hrest : forall bad : Response,
            status bad = 400 -> prop (body bad) "valid" <> Some (JBool true) ->
            (forall path, v <> JString path) ->
            (truthy (Some v) = false -> bad = json 400 [("error", JString "Path is required")]) ->
            (truthy (Some v) = true ->
               bad = json 400 [("valid", JBool false);
                               ("error", JString (ERR_INVALID_ARG_TYPE fs v))]) ->
            (status bad = 200 \/ status bad = 400) /\
            (status bad = 200 <-> exists path, Some v = Some (JString path) /\ path <> "") /\
            (truthy (Some v) = false -> bad = json 400 [("error", JString "Path is required")]) /\
            (forall v', Some v = Some v' -> truthy (Some v') = true ->
               (forall path, v' <> JString path) ->
               bad = json 400 [("valid", JBool false);
                               ("error", JString (ERR_INVALID_ARG_TYPE fs v'))]) /\
            (status bad = 400 -> prop (body bad) "valid" <> Some (JBool true))).
  { intros bad Hs Hb Hv' H0 H1. split_and!; [by right| |done| |done].
    - rewrite Hs. split; [done|]. intros H. by destruct (Hno v Hv' H).
    - intros v' [= <-] Ht _. by apply H1. }
  destruct v as [|b|n|s|l|fs']; cbn [truthy negb] in *.
  - by apply Hrest.
  - destruct b; cbn [negb]; by apply Hrest.
  - destruct (Z.eqb n 0); cbn [negb]; by apply Hrest.
  - destruct (String.eqb_spec s "") as [->|Hne]; simpl.
    + split_and!; [by right| |done| |by intros _].
      * split; [done|]. by intros (? & [= <-] & ?).
      * intros v [= <-] _ H. by destruct (H "").
    + split_and!; [by left| |done| |done].
      * split; [eauto|done].
      * intros v [= <-] _ H. by destruct (H s).
  - by apply Hrest.
  - by apply Hrest.
Qed.

(** ** The page script *)

Lemma prefix_app sub s :
  String.prefix sub s = true <-> exists post, s = sub +:+ post.
Proof.
  revert sub. induction s as [|c' s IH]; intros [|c sub]; simpl.
  - split; [intros _; by exists ""|done].
  - split; [done|by intros [? ?]].
  - split; [intros _; by eexists|done].
  - destruct (Ascii.ascii_dec c c') as [<-|Hne].
    + rewrite IH. split; intros [post Hp]; exists post; [by rewrite Hp|by injection Hp].
    + split; [done|]. intros [post [= ? _]]. done.
Qed.

Lemma includes_spec s sub :
  App.includes s sub = true <-> exists pre post, s = pre +:+ sub +:+ post.
Proof.
  induction s as [|c s IH]; cbn [App.includes].
  - rewrite orb_false_r, prefix_app. split.
    + intros [post Hp]. by exists "", post.
    + intros (pre & post & Hp). destruct pre; [by exists post|done].
  - rewrite orb_true_iff, prefix_app, IH. split.
    + intros [[post Hp]|(pre & post & Hp)].
      * by exists "", post.
      * exists (String c pre), post. simpl. by rewrite Hp.
    + intros (pre & post & Hp). destruct pre as [|c' pre]; simpl in Hp.
      * left. by exists post.
      * right. injection Hp as -> Hp. by exists pre, post.
Qed.

Lemma parseInt_nonneg digits : (0 <= App.parseInt digits)%Z.
Proof.
  unfold App.parseInt.
  assert (H : forall l acc, (0 <= acc)%Z ->
            (0 <= fold_left (fun acc c => 10 * acc + Z.of_nat (nat_of_ascii c - 48)) l acc)%Z).
  { induction l as [|c l IH]; intros acc Hacc; simpl; [done|]. apply IH. lia. }
  by apply H.
Qed.

Section Script.
Variable Math_round_percent : Z -> Z -> Z.

Lemma updateProgress_same p :
same_session p (App.updateProgress Math_round_percent p) /\
App.downloadStats (App.updateProgress Math_round_percent p) = App.downloadStats p.
Proof.
unfold App.updateProgress, same_session.
by destruct (Z.ltb 0 (App.total (App.downloadStats p))).
Qed.

Lemma count_message_stats message p :
let s := App.downloadStats p in
let s' := App.downloadStats (App.count_message Math_round_percent message p) in
same_session p (App.count_message Math_round_percent message p) /\
(App.downloaded s <= App.downloaded s' <= App.downloaded s + 1)%Z /\
(App.skipped s <= App.skipped s' <= App.skipped s + 1)%Z /\
(App.errors s <= App.errors s' <= App.errors s + 1)%Z /\
(App.processed s <= App.processed s' <= App.processed s + 1)%Z /\
(App.total s <= App.total s')%Z /\
(App.total s' <> App.total s -> App.processed s' = App.processed s) /\
(App.includes message ("Downloaded " +:+ dquote) = true ->
   App.downloaded s' = (App.downloaded s + 1)%Z).
Proof.
intros s s'. subst s s'. unfold App.count_message.
assert (Hup : forall st,
          same_session p (App.set_downloadStats st p) ->
          same_session p (App.updateProgress Math_round_percent (App.set_downloadStats st p)) /\
          App.downloadStats (App.updateProgress Math_round_percent (App.set_downloadStats st p)) = st).
{ intros st Hs. destruct (updateProgress_same (App.set_downloadStats st p)) as [H1 H2].
  split; [|done]. destruct Hs as (? & ? & ? & ?), H1 as (? & ? & ? & ?).
  unfold same_session. split_and!; congruence. }
assert (Hsame : same_session p p) by done.
destruct (App.includes message ("Downloaded " +:+ dquote)).
{ destruct (Hup {| App.total := App.total (App.downloadStats p);
                   App.downloaded := App.downloaded (App.downloadStats p) + 1;
                   App.skipped := App.skipped (App.downloadStats p);
                   App.errors := App.errors (App.downloadStats p) |}) as [H ->]; [done|].
  unfold App.processed; simpl. split_and!; try done; lia. }
destruct (App.includes message "Skipping existing").
{ destruct (Hup {| App.total := App.total (App.downloadStats p);
                   App.downloaded := App.downloaded (App.downloadStats p);
                   App.skipped := App.skipped (App.downloadStats p) + 1;
                   App.errors := App.errors (App.downloadStats p) |}) as [H ->]; [done|].
  unfold App.processed; simpl. split_and!; try done; lia. }
destruct (App.includes message "Error downloading").
{ destruct (Hup {| App.total := App.total (App.downloadStats p);
                   App.downloaded := App.downloaded (App.downloadStats p);
                   App.skipped := App.skipped (App.downloadStats p);
                   App.errors := App.errors (App.downloadStats p) + 1 |}) as [H ->]; [done|].
  unfold App.processed; simpl. split_and!; try done; lia. }
destruct (App.includes message "Downloading" && App.includes message "images");
  [|unfold App.processed; split_and!; try done; lia].
destruct (App.match_images message) as [digits|];
  [|unfold App.processed; split_and!; try done; lia].
destruct (Hup {| App.total := App.total (App.downloadStats p) + App.parseInt digits;
                 App.downloaded := App.downloaded (App.downloadStats p);
                 App.skipped := App.skipped (App.downloadStats p);
                 App.errors := App.errors (App.downloadStats p) |}) as [H ->]; [done|].
pose proof (parseInt_nonneg digits).
unfold App.processed; simpl. split_and!; try done; lia.
Qed.

(** X14. Handling a [log] message never changes the current download or
  the two buttons, and adds exactly one line to the log. It moves the
  counters by at most one event: each of [downloaded], [skipped] and
  [errors] stays or grows by one, their sum grows by at most one,
  [total] never shrinks and only changes when none of the three does,
  and a message that is not text changes no counter at all. *)
Theorem log_message_counts_at_most_once (now : string) (data : Json) (p : App.Page) :
prop data "type" = Some (JString "log") ->
exists p',
  App.handleWebSocketMessage Math_round_percent now data p = Normal p' /\
  App.currentDownloadId p' = App.currentDownloadId p /\
  App.startBtn_disabled p' = App.startBtn_disabled p /\
  App.cancelBtn_disabled p' = App.cancelBtn_disabled p /\
  (exists line, App.logContainer p' = App.logContainer p ++ [line]) /\
  let s := App.downloadStats p in
  let s' := App.downloadStats p' in
  (App.downloaded s <= App.downloaded s' <= App.downloaded s + 1)%Z /\
  (App.skipped s <= App.skipped s' <= App.skipped s + 1)%Z /\
  (App.errors s <= App.errors s' <= App.errors s + 1)%Z /\
  (App.processed s <= App.processed s' <= App.processed s + 1)%Z /\
  (App.total s <= App.total s')%Z /\
  (App.total s' <> App.total s -> App.processed s' = App.processed s) /\
  ((forall text, App.log_message data <> Some (JString text)) -> s' = s).
Proof.
intros Ht. destruct data; try done.
unfold App.handleWebSocketMessage. rewrite Ht. cbn [String.eqb Ascii.eqb Bool.eqb].
eexists. split; [reflexivity|].
unfold App.handleLogMessage.
set (data := JObject fields) in *.
set (full := if truthy (prop data "originator") then _ else _).
set (p1 := App.addLog now full (prop data "level") p).
assert (Hline : exists line, App.logContainer p1 = App.logContainer p ++ [line])
  by (eexists; reflexivity).
destruct (App.log_message data) as [[| | |text| |]|] eqn:Hm;
  try (split_and!; try done; unfold App.processed; simpl; lia).
destruct (count_message_stats text p1)
  as ((H1 & H2 & H3 & H4) & Hd & Hs & He & Hp & Htot & Hex & _).
destruct Hline as [line Hline].
split; [by rewrite H1|]. split; [by rewrite H2|]. split; [by rewrite H3|].
split; [exists line; by rewrite H4|].
split; [exact Hd|]. split; [exact Hs|]. split; [exact He|]. split; [exact Hp|].
split; [exact Htot|]. split; [exact Hex|].
intros H. by destruct (H text).
Qed.

(** X13. A [complete], [error] or [cancelled] message puts the page back
  to idle whatever download it is about: its [downloadId] is not
  compared with the current one. The current download is forgotten, the
  start button is enabled and the cancel button disabled, one line is
  logged, the counters stay, and a click on cancel sends no request. *)
Theorem terminal_message_idles_the_page (now type : string) (data : Json)
  (p : App.Page) :
prop data "type" = Some (JString type) ->
type = "complete" \/ type = "error" \/ type = "cancelled" ->
exists p',
  App.handleWebSocketMessage Math_round_percent now data p = Normal p' /\
  App.currentDownloadId p' = Some JNull /\
  App.startBtn_disabled p' = false /\
  App.cancelBtn_disabled p' = true /\
  App.cancel_click p' = None /\
  App.downloadStats p' = App.downloadStats p /\
  exists line, App.logContainer p' = App.logContainer p ++ [line].
Proof.
intros Ht Htype. destruct data; try done.
unfold App.handleWebSocketMessage. rewrite Ht.
destruct Htype as [-> | [-> | ->]]; cbn [String.eqb Ascii.eqb Bool.eqb];
  (eexists; split; [reflexivity|]; split_and!; try done; eexists; reflexivity).
Qed.

(** X15. A frame that is not JSON, that is [null], or whose [type] is
  none of [log], [complete], [error] and [cancelled] leaves the page
  exactly as it was. *)
Theorem other_frames_are_ignored (now : string) (parsed : Completion Json)
  (p : App.Page) :
(parsed = Throw \/ parsed = Normal JNull \/
 exists data, parsed = Normal data /\
   forall type, prop data "type" = Some (JString type) ->
     type <> "log" /\ type <> "complete" /\ type <> "error" /\ type <> "cancelled") ->
App.onmessage Math_round_percent now parsed p = p.
Proof.
intros [-> | [-> | (data & -> & Htype)]]; try done.
unfold App.onmessage, App.handleWebSocketMessage.
destruct data; try done;
  (destruct (prop _ "type") as [[| | |type| |]|] eqn:Ht; try done;
   destruct (Htype type eq_refl) as (H1 & H2 & H3 & H4);
   by rewrite (proj2 (String.eqb_neq _ _) H1), (proj2 (String.eqb_neq _ _) H2),
        (proj2 (String.eqb_neq _ _) H3), (proj2 (String.eqb_neq _ _) H4)).
Qed.
End Script.

Lemma terminal_message_idles_the_page_witness :
  let data := JObject [("type", JString "complete"); ("downloadId", JString "99");
                       ("message", JString "Download completed successfully")] in
  exists p',
    App.handleWebSocketMessage percent_sample "10:00:00" data sample_page = Normal p' /\
    App.currentDownloadId p' = Some JNull /\
    App.cancel_click p' = None.
Proof.
  intros data.
  destruct (terminal_message_idles_the_page percent_sample "10:00:00" "complete" data
              sample_page eq_refl) as (p' & Hp & Hid & _ & _ & Hclick & _).
  { by left. }
  exists p'. split; [exact Hp|]. split; [exact Hid|exact Hclick].
Defined.

Lemma log_message_counts_at_most_once_witness :
  let data := JObject [("type", JString "log"); ("level", JString "info");
                       ("originator", JString "Downloader");
                       ("message", JArray [JString "Downloading"; JNumber 12;
                                           JString "images"])] in
  exists p',
    App.handleWebSocketMessage percent_sample "10:00:00" data sample_page = Normal p' /\
    App.currentDownloadId p' = Some (JString "17") /\
    (App.total (App.downloadStats sample_page) <= App.total (App.downloadStats p'))%Z.
Proof.
  intros data.
  destruct (log_message_counts_at_most_once percent_sample "10:00:00" data sample_page
              eq_refl) as (p' & Hp & Hid & _ & _ & _ & _ & _ & _ & _ & Ht & _).
  exists p'. split; [exact Hp|]. split; [exact Hid|exact Ht].
Defined.

Lemma other_frames_are_ignored_witness :
  App.onmessage percent_sample "10:00:00"
    (Normal (JObject [("type", JString "progress")])) sample_page = sample_page.
Proof.
  apply other_frames_are_ignored. right. right. eexists. split; [reflexivity|].
  intros type [= <-]. split_and!; discriminate.
Defined.
